(** * Fuel Dominion: the browser client and the rules it displays

    A shallow embedding of the JavaScript client of the game (the HUD
    controller, the WebSocket game controller and the two versions of the
    Three.js scene builder), together with models of the three backend
    rules the client relies on (winner, fuel, final MCTS choice).

    Conventions.
    - A JavaScript value that the client only prints, compares with a
      string constant or tests for truthiness is a [jsval].
    - A plain object used as a dictionary (the scene registries, the DOM
      indexed by element id) is a [gmap] over its own string keys.
    - Three.js objects live in a store indexed by allocation number, so
      that two references to one object stay aliased.
    - A method that may throw returns an [option]; [None] is the
      exception.
    - Numbers that are animated are exact rationals ([Q]); clock readings
      are integers (milliseconds). *)

From Stdlib Require Import Ascii String ZArith QArith Qminmax Lia Lqa.
From stdpp Require Import gmap strings list fin_maps pretty.

Local Open Scope string_scope.
Local Open Scope list_scope.
Local Open Scope Z_scope.

(* ===================================================================== *)
(** * Part I: definitions *)
(* ===================================================================== *)

(** ** JavaScript values *)

Inductive jsval :=
  | JUndefined
  | JNull
  | JBool (b : bool)
  | JInt (n : Z)
  | JStr (s : string)
  | JOther (text : string) (truthy : bool).

(** [String(v)], the conversion a template literal applies to [${v}].
    [JOther] stands for any value not listed (a non-integer number, an
    object): the client only ever prints it and tests its truthiness. *)
Definition to_string (v : jsval) : string :=
  match v with
  | JUndefined => "undefined"
  | JNull => "null"
  | JBool true => "true"
  | JBool false => "false"
  | JInt n => pretty n
  | JStr s => s
  | JOther text _ => text
  end.

(** Truthiness, as tested by [if (v)], [v ? a : b] and [v || d]. *)
Definition truthy (v : jsval) : bool :=
  match v with
  | JUndefined | JNull => false
  | JBool b => b
  | JInt n => negb (n =? 0)
  | JStr s => negb (bool_decide (s = EmptyString))
  | JOther _ t => t
  end.

(** [v === 'lit'] for a string constant. *)
Definition is_str (v : jsval) (lit : string) : bool :=
  match v with
  | JStr s => bool_decide (s = lit)
  | _ => false
  end.

(** [v || d]. *)
Definition js_or (v d : jsval) : jsval := if truthy v then v else d.

(** The setter of [Node.textContent]: null and undefined clear the text,
    every other value is converted to a string. *)
Definition as_text (v : jsval) : string :=
  match v with
  | JUndefined | JNull => EmptyString
  | _ => to_string v
  end.

(** ** Messages of the server *)

Record Position := { pos_x : Z; pos_y : Z }.

Record AgentData := {
  position : Position;
  fuel : jsval;
  nodes_controlled : jsval;
  score : jsval
}.

Record Agents := { strategist : AgentData; instinct : AgentData }.

Record FuelStationData := { fs_position : Position; is_active : jsval }.

Record LightNodeData := { ln_position : Position; controlled_by : jsval }.

Record Snapshot := {
  grid_size : Z;
  grid : list (list string);
  fuel_stations : list FuelStationData;
  light_nodes : list LightNodeData;
  agents : option Agents;
  turn : jsval;
  max_turns : jsval
}.

(** The executed action. [a_to] and [a_position] are objects that a
    message may lack ([None] is [undefined]). *)
Record Action := {
  a_type : jsval;
  a_agent : jsval;
  a_to : option Position;
  a_position : option Position;
  fuel_gained : jsval;
  new_fuel : jsval;
  from_agent : jsval
}.

Record GameOver := {
  winner : jsval;
  final_state : Snapshot;
  strategist_score : jsval;
  instinct_score : jsval
}.

(** ** UIController (the HUD) *)

(** The part of the document the controller writes: the text and colour
    of the elements by id, their class lists, the disabled flag of the
    buttons and the children of [#action-log]. *)
Record UIState := {
  textContent : gmap string string;
  styleColor : gmap string string;
  classList : gmap string (gset string);
  disabled : gset string;
  actionLog : list string
}.

Definition ui_initial : UIState :=
  {| textContent := ∅; styleColor := ∅;
     classList := {[ "cinematic" := {[ "hidden" ]} ]};
     disabled := ∅; actionLog := [] |}.

Definition set_text (id : string) (v : jsval) (u : UIState) : UIState :=
  {| textContent := <[id := as_text v]> (textContent u);
     styleColor := styleColor u; classList := classList u;
     disabled := disabled u; actionLog := actionLog u |}.

Definition set_color (id colour : string) (u : UIState) : UIState :=
  {| textContent := textContent u;
     styleColor := <[id := colour]> (styleColor u);
     classList := classList u;
     disabled := disabled u; actionLog := actionLog u |}.

Definition classes_of (id : string) (u : UIState) : gset string :=
  default ∅ (classList u !! id).

Definition class_add (id c : string) (u : UIState) : UIState :=
  {| textContent := textContent u; styleColor := styleColor u;
     classList := <[id := classes_of id u ∪ {[ c ]}]> (classList u);
     disabled := disabled u; actionLog := actionLog u |}.

Definition class_remove (id c : string) (u : UIState) : UIState :=
  {| textContent := textContent u; styleColor := styleColor u;
     classList := <[id := classes_of id u ∖ {[ c ]}]> (classList u);
     disabled := disabled u; actionLog := actionLog u |}.

Definition set_log (l : list string) (u : UIState) : UIState :=
  {| textContent := textContent u; styleColor := styleColor u;
     classList := classList u; disabled := disabled u; actionLog := l |}.

Definition updateAgentStats (agentType : string) (data : AgentData)
    (u : UIState) : UIState :=
  if bool_decide (agentType = "strategist") then
    set_text "strategist-score" (score data)
      (set_text "strategist-fuel" (fuel data)
         (set_text "strategist-nodes" (nodes_controlled data) u))
  else if bool_decide (agentType = "instinct") then
    set_text "instinct-score" (score data)
      (set_text "instinct-fuel" (fuel data)
         (set_text "instinct-nodes" (nodes_controlled data) u))
  else u.

Definition updateTurn (current max : jsval) (u : UIState) : UIState :=
  set_text "max-turns" max (set_text "current-turn" current u).

(** The loop [while (children.length > 20) removeChild(firstChild)]. *)
Fixpoint trim_log (l : list string) : list string :=
  match l with
  | [] => []
  | _ :: rest => if (20 <? length l)%nat then trim_log rest else l
  end.

(** [now] is the text of [new Date().toLocaleTimeString()]. *)
Definition addLogEntry (now message : string) (u : UIState) : UIState :=
  let entry := "[" +:+ now +:+ "] " +:+ message in
  set_log (trim_log (actionLog u ++ [entry])) u.

Definition unit_name (v : jsval) : string :=
  if is_str v "strategist" then "Unit S" else "Unit I".

Definition point_text (p : Position) : string :=
  "(" +:+ pretty (pos_x p) +:+ ", " +:+ pretty (pos_y p) +:+ ")".

(** [formatAction(action, aiInfo)]; [aiInfo] is not read. Reading a
    coordinate of a missing [to] or [position] throws. *)
Definition formatAction (action : Action) (aiInfo : jsval) : option string :=
  let agentName := unit_name (a_agent action) in
  if is_str (a_type action) "move" then
    p ← a_to action;
    Some (agentName +:+ " moved to " +:+ point_text p)
  else if is_str (a_type action) "refuel" then
    Some (agentName +:+ " refueled +" +:+ to_string (fuel_gained action)
            +:+ " fuel → " +:+ to_string (new_fuel action))
  else if is_str (a_type action) "control_node" then
    p ← a_position action;
    Some (agentName +:+ " controlled light node at " +:+ point_text p)
  else if is_str (a_type action) "capture_node" then
    let fromAgent := unit_name (from_agent action) in
    p ← a_position action;
    Some (agentName +:+ " captured node from " +:+ fromAgent +:+ " at "
            +:+ point_text p)
  else if is_str (a_type action) "wait" then
    Some (agentName +:+ " is waiting...")
  else
    Some (agentName +:+ " performed " +:+ to_string (a_type action)).

(** [showGameOver(data)]. The statistics are read through
    [data.final_state.agents], which throws when the snapshot has no
    agents; the winner line is written before that. *)
Definition showGameOver (now : string) (data : GameOver) (u : UIState)
    : option UIState :=
  let u1 :=
    if is_str (winner data) "strategist" then
      set_color "winner-text" "#00ff88"
        (set_text "winner-text" (JStr "⚙️ UNIT S (STRATEGIST) WINS") u)
    else if is_str (winner data) "instinct" then
      set_color "winner-text" "#ff00ff"
        (set_text "winner-text" (JStr "🎯 UNIT I (INSTINCT) WINS") u)
    else
      set_color "winner-text" "#ffaa00"
        (set_text "winner-text" (JStr "🤝 DRAW - EQUAL PERFORMANCE") u) in
  ags ← agents (final_state data);
  let u2 := set_text "final-strategist-nodes"
              (nodes_controlled (strategist ags)) u1 in
  let u3 := set_text "final-instinct-nodes"
              (nodes_controlled (instinct ags)) u2 in
  let u4 := set_text "final-strategist-score" (strategist_score data) u3 in
  let u5 := set_text "final-instinct-score" (instinct_score data) u4 in
  let u6 := class_add "game-over" "show" u5 in
  Some (addLogEntry now
          ("GAME OVER - Winner: " +:+ to_string (js_or (winner data) (JStr "DRAW")))
          u6).

(** The click handler of the start button and the cinematic it opens;
    [cinematicDone] is the callback of the 12 second timer. *)
Definition showCinematic (u : UIState) : UIState :=
  class_remove "cinematic" "hidden" u.

Definition onStartGame (u : UIState) : UIState :=
  showCinematic
    {| textContent := textContent u; styleColor := styleColor u;
       classList := classList u;
       disabled := disabled u ∪ {[ "start-btn" ]};
       actionLog := actionLog u |}.

Definition cinematicDone (now : string) (u : UIState) : UIState :=
  addLogEntry now "Mission started. Agents are now active."
    (class_add "cinematic" "hidden" u).

(** ** GameScene (the Three.js scene) *)

Inductive Kind :=
  | KAgent | KWall | KDoor | KWindow | KTree | KFuelStation | KLightNode.

Global Instance Kind_eq_dec : EqDecision Kind.
Proof. solve_decision. Defined.

(** One rendered entity: the mesh or group added to the scene together
    with the parts the registry entry points to (its light, its bulb or
    tank and, for a light node, [controlledBy]). *)
Record Object3D := {
  kind : Kind;
  at_x : Q;
  at_y : Q;
  at_z : Q;
  colour : Z;
  emissiveIntensity : Q;
  lightIntensity : Q;
  controlledBy : jsval
}.

(** The constants in which the two versions of the scene differ. *)
Record Look := {
  wall_colour : Z;
  unlit_colour : Z;
  node_emissive_on : Q;
  node_emissive_off : Q;
  node_light_on : Q;
  node_light_off : Q;
  station_emissive_on : Q;
  station_emissive_off : Q;
  station_light_on : Q;
  station_light_off : Q;
  move_duration : Z
}.

(** [src/frontend/scene.js]. *)
Definition scene_js : Look :=
  {| wall_colour := 0x3a3a4e;
     unlit_colour := 0x888888;
     node_emissive_on := 3 # 5; node_emissive_off := 1 # 5;
     node_light_on := 3 # 2; node_light_off := 2 # 5;
     station_emissive_on := 3 # 10; station_emissive_off := 1 # 20;
     station_light_on := 1; station_light_off := 1 # 5;
     move_duration := 300 |}.

(** [src/unnamed/part_001], the other version of the scene. *)
Definition part_001 : Look :=
  {| wall_colour := 0x2a2a3e;
     unlit_colour := 0x666666;
     node_emissive_on := 1 # 2; node_emissive_off := 1 # 10;
     node_light_on := 3 # 2; node_light_off := 1 # 5;
     station_emissive_on := 1 # 5; station_emissive_off := 0;
     station_light_on := 4 # 5; station_light_off := 1 # 10;
     move_duration := 500 |}.

Record GameScene := {
  store : list Object3D;
  children : list nat;
  sceneAgents : gmap string nat;
  fuelStations : gmap string nat;
  lightNodes : gmap string nat;
  environment : gmap string nat;
  gridSize : Z;
  cellSize : Z
}.

(** The scene after the constructor: the ground, the grid helper and the
    lamps it adds are never touched again and are left out. *)
Definition scene_initial (size : Z) : GameScene :=
  {| store := []; children := [];
     sceneAgents := ∅; fuelStations := ∅; lightNodes := ∅; environment := ∅;
     gridSize := size; cellSize := 2 |}.

Inductive Registry := RAgents | RFuelStations | RLightNodes | REnvironment.

Definition registry (r : Registry) (s : GameScene) : gmap string nat :=
  match r with
  | RAgents => sceneAgents s
  | RFuelStations => fuelStations s
  | RLightNodes => lightNodes s
  | REnvironment => environment s
  end.

(** [`${position.x},${position.y}`]. *)
Definition key (p : Position) : string :=
  pretty (pos_x p) +:+ "," +:+ pretty (pos_y p).

(** [c * this.cellSize + this.cellSize / 2]. *)
Definition cell_centre (cellSize : Z) (c : Z) : Q :=
  (inject_Z c * inject_Z cellSize + inject_Z cellSize / 2)%Q.

(** [this.scene.add(o); this.<registry>[k] = { mesh: o, ... }] for a
    newly allocated object [o]. *)
Definition add_entity (r : Registry) (k : string) (o : Object3D)
    (s : GameScene) : GameScene :=
  let id := length (store s) in
  let put (r' : Registry) :=
    match r, r' with
    | RAgents, RAgents | RFuelStations, RFuelStations
    | RLightNodes, RLightNodes | REnvironment, REnvironment =>
        <[k := id]> (registry r' s)
    | _, _ => registry r' s
    end in
  {| store := store s ++ [o];
     children := children s ++ [id];
     sceneAgents := put RAgents;
     fuelStations := put RFuelStations;
     lightNodes := put RLightNodes;
     environment := put REnvironment;
     gridSize := gridSize s; cellSize := cellSize s |}.

Definition set_store (st : list Object3D) (s : GameScene) : GameScene :=
  {| store := st; children := children s;
     sceneAgents := sceneAgents s; fuelStations := fuelStations s;
     lightNodes := lightNodes s; environment := environment s;
     gridSize := gridSize s; cellSize := cellSize s |}.

Definition entity_at (cellSize : Z) (k : Kind) (p : Position) (height : Q)
    (col : Z) (emissive light : Q) (owner : jsval) : Object3D :=
  {| kind := k;
     at_x := cell_centre cellSize (pos_x p); at_y := height;
     at_z := cell_centre cellSize (pos_y p);
     colour := col; emissiveIntensity := emissive; lightIntensity := light;
     controlledBy := owner |}.

Definition createAgent (agentType : string) (p : Position) (col : Z)
    (s : GameScene) : GameScene :=
  add_entity RAgents agentType
    (entity_at (cellSize s) KAgent p 0 col (3 # 10) 1 JUndefined) s.

Definition createWall (lk : Look) (p : Position) (s : GameScene) : GameScene :=
  add_entity REnvironment (key p)
    (entity_at (cellSize s) KWall p (5 # 4) (wall_colour lk) 0 0 JUndefined) s.

Definition createDoor (p : Position) (isOpen : bool) (s : GameScene)
    : GameScene :=
  add_entity REnvironment (key p)
    (entity_at (cellSize s) KDoor p (11 # 10) (if isOpen then 0x4a5a6a else 0x3a4a5a)
       0 0 JUndefined) s.

Definition createWindow (p : Position) (s : GameScene) : GameScene :=
  add_entity REnvironment (key p)
    (entity_at (cellSize s) KWindow p (3 # 2) 0x88aacc 0 0 JUndefined) s.

Definition createTree (p : Position) (s : GameScene) : GameScene :=
  add_entity REnvironment (key p)
    (entity_at (cellSize s) KTree p 0 0x1a3a1a 0 0 JUndefined) s.

Definition createFuelStation (lk : Look) (p : Position) (s : GameScene)
    : GameScene :=
  add_entity RFuelStations (key p)
    (entity_at (cellSize s) KFuelStation p 0 0xffaa00
       (station_emissive_on lk) (station_light_on lk) JUndefined) s.

(** The bulb colour chosen by [createLightNode] and [updateLightNode]. *)
Definition bulb_colour (lk : Look) (owner : jsval) : Z :=
  if is_str owner "strategist" then 0x00ff88
  else if is_str owner "instinct" then 0xff00ff
  else unlit_colour lk.

(** [createLightNode(position, controlledBy = null)]: the default value
    replaces an argument that is [undefined]. *)
Definition createLightNode (lk : Look) (p : Position) (owner : jsval)
    (s : GameScene) : GameScene :=
  let controlledBy := match owner with JUndefined => JNull | v => v end in
  add_entity RLightNodes (key p)
    (entity_at (cellSize s) KLightNode p 0 (bulb_colour lk controlledBy)
       (if truthy controlledBy then node_emissive_on lk
        else node_emissive_off lk)
       (if truthy controlledBy then node_light_on lk else node_light_off lk)
       controlledBy) s.

(** What [updateLightNode] writes into a node. The pulse it then starts
    adds [sin(0) * 0.5 = 0] to the light on its first, synchronous frame
    and restores the same intensity on its last one; the frames between
    are not modelled. *)
Definition relight (lk : Look) (owner : jsval) (o : Object3D) : Object3D :=
  {| kind := kind o; at_x := at_x o; at_y := at_y o; at_z := at_z o;
     colour := bulb_colour lk owner;
     emissiveIntensity :=
       if truthy owner then node_emissive_on lk else node_emissive_off lk;
     lightIntensity :=
       if truthy owner then node_light_on lk else node_light_off lk;
     controlledBy := owner |}.

(** [updateLightNode(position, controlledBy)]; reading [position.x] of a
    missing position throws. *)
Definition updateLightNode (lk : Look) (position : option Position)
    (owner : jsval) (s : GameScene) : option GameScene :=
  p ← position;
  match lightNodes s !! key p with
  | Some id => Some (set_store (alter (relight lk owner) id (store s)) s)
  | None => Some s
  end.

Definition restation (lk : Look) (isActive : jsval) (o : Object3D)
    : Object3D :=
  {| kind := kind o; at_x := at_x o; at_y := at_y o; at_z := at_z o;
     colour := colour o;
     emissiveIntensity :=
       if truthy isActive then station_emissive_on lk
       else station_emissive_off lk;
     lightIntensity :=
       if truthy isActive then station_light_on lk
       else station_light_off lk;
     controlledBy := controlledBy o |}.

(** [updateFuelStation(position, isActive)]. *)
Definition updateFuelStation (lk : Look) (position : option Position)
    (isActive : jsval) (s : GameScene) : option GameScene :=
  p ← position;
  match fuelStations s !! key p with
  | Some id => Some (set_store (alter (restation lk isActive) id (store s)) s)
  | None => Some s
  end.

(** The closure [animate] of [moveAgent]: the mesh it captured, where the
    move starts and ends, and when it started. *)
Record MoveAnimation := {
  subject : nat;
  startX : Q;
  startZ : Q;
  targetX : Q;
  targetZ : Q;
  startTime : Z;
  duration : Z
}.

Definition progress_at (a : MoveAnimation) (now : Z) : Q :=
  Qmin (inject_Z (now - startTime a) / inject_Z (duration a)) 1.

(** Ease in-out. *)
Definition eased (progress : Q) : Q :=
  if Qlt_le_dec progress (1 # 2)
  then 2 * progress * progress
  else 1 - ((-2 * progress + 2) * (-2 * progress + 2)) / 2.

Definition move_to (nx nz : Q) (o : Object3D) : Object3D :=
  {| kind := kind o; at_x := nx; at_y := at_y o; at_z := nz;
     colour := colour o; emissiveIntensity := emissiveIntensity o;
     lightIntensity := lightIntensity o; controlledBy := controlledBy o |}.

(** One frame of the animation at clock reading [now]. The boolean tells
    whether the frame asked for another one ([progress < 1]). *)
Definition animate (a : MoveAnimation) (now : Z) (s : GameScene)
    : GameScene * bool :=
  let progress := progress_at a now in
  let e := eased progress in
  let nx := (startX a + (targetX a - startX a) * e)%Q in
  let nz := (startZ a + (targetZ a - startZ a) * e)%Q in
  (set_store (alter (move_to nx nz) (subject a) (store s)) s,
   if Qlt_le_dec progress 1 then true else false).

(** [moveAgent(agentType, targetPosition)]. [started] is the clock when
    the move is set up and [now] the clock of the first frame, which runs
    before the call returns. The result carries the animation when a
    further frame was requested. *)
Definition moveAgent (lk : Look) (agentType : string)
    (targetPosition : option Position) (started now : Z) (s : GameScene)
    : option (GameScene * option MoveAnimation) :=
  match sceneAgents s !! agentType with
  | None => Some (s, None)
  | Some id =>
      p ← targetPosition;
      mesh ← store s !! id;
      let a := {| subject := id;
                  startX := at_x mesh; startZ := at_z mesh;
                  targetX := cell_centre (cellSize s) (pos_x p);
                  targetZ := cell_centre (cellSize s) (pos_y p);
                  startTime := started; duration := move_duration lk |} in
      let '(s', again) := animate a now s in
      Some (s', if again then Some a else None)
  end.

(** [this.scene.remove(o)]. *)
Definition scene_remove (id : nat) (ch : list nat) : list nat :=
  filter (λ i, i ≠ id) ch.

(** [Object.values(registry).forEach(e => this.scene.remove(e.mesh))]. *)
Definition remove_registered (reg : gmap string nat) (ch : list nat)
    : list nat :=
  foldl (λ ch id, scene_remove id ch) ch (map_to_list reg).*2.

(** The first statements of [buildScene], the same in both versions. *)
Definition clear_scene (s : GameScene) : GameScene :=
  {| store := store s;
     children :=
       remove_registered (environment s)
         (remove_registered (lightNodes s)
            (remove_registered (fuelStations s)
               (remove_registered (sceneAgents s) (children s))));
     sceneAgents := ∅; fuelStations := ∅; lightNodes := ∅; environment := ∅;
     gridSize := gridSize s; cellSize := cellSize s |}.

Definition set_gridSize (n : Z) (s : GameScene) : GameScene :=
  {| store := store s; children := children s;
     sceneAgents := sceneAgents s; fuelStations := fuelStations s;
     lightNodes := lightNodes s; environment := environment s;
     gridSize := n; cellSize := cellSize s |}.

(** A loop whose body may throw. *)
Fixpoint for_each {A S : Type} (body : A → S → option S) (l : list A) (s : S)
    : option S :=
  match l with
  | [] => Some s
  | a :: rest => s' ← body a s; for_each body rest s'
  end.

(** The two nested loops over the grid. [gameState.grid[y]] of a missing
    row is [undefined] and indexing it throws; a missing cell of a row
    that exists is [undefined] and matches no cell type. *)
Definition for_each_cell (cell : Position → option string → GameScene → GameScene)
    (gameState : Snapshot) (s : GameScene) : option GameScene :=
  for_each
    (λ y s,
       row ← grid gameState !! Z.to_nat y;
       Some (foldl
               (λ s x, cell {| pos_x := x; pos_y := y |}
                            (row !! Z.to_nat x) s)
               s (seqZ 0 (grid_size gameState))))
    (seqZ 0 (grid_size gameState)) s.

Definition place_agents (gameState : Snapshot) (s : GameScene)
    : option GameScene :=
  ags ← agents gameState;
  Some (createAgent "instinct" (position (instinct ags)) 0xff00ff
          (createAgent "strategist" (position (strategist ags)) 0x00ff88 s)).

(** [buildScene] of [src/frontend/scene.js]. *)
Definition buildScene (gameState : Snapshot) (s : GameScene)
    : option GameScene :=
  let s := clear_scene s in
  let s := if bool_decide (grid_size gameState = 0) then s
           else set_gridSize (grid_size gameState) s in
  s ← for_each_cell
        (λ pos cellType s,
           if bool_decide (cellType = Some "wall")
           then createWall scene_js pos s else s)
        gameState s;
  let s := foldl (λ s fs, createFuelStation scene_js (fs_position fs) s)
             s (fuel_stations gameState) in
  let s := foldl (λ s node,
                    createLightNode scene_js (ln_position node)
                      (controlled_by node) s)
             s (light_nodes gameState) in
  place_agents gameState s.

(** One case of the [switch] of [buildScene] in [src/unnamed/part_001]. *)
Definition build_cell_001 (pos : Position) (cellType : option string)
    (s : GameScene) : GameScene :=
  if bool_decide (cellType = Some "wall") then createWall part_001 pos s
  else if bool_decide (cellType = Some "door") then createDoor pos false s
  else if bool_decide (cellType = Some "window") then createWindow pos s
  else if bool_decide (cellType = Some "tree") then createTree pos s
  else if bool_decide (cellType = Some "fuel_station")
       then createFuelStation part_001 pos s
  else if bool_decide (cellType = Some "light_node")
       then createLightNode part_001 pos JUndefined s
  else s.

(** [buildScene] of [src/unnamed/part_001]. *)
Definition buildScene_001 (gameState : Snapshot) (s : GameScene)
    : option GameScene :=
  let s := clear_scene s in
  s ← for_each_cell build_cell_001 gameState s;
  s ← place_agents gameState s;
  for_each
    (λ node s,
       updateLightNode part_001 (Some (ln_position node))
         (controlled_by node) s)
    (light_nodes gameState) s.

(** The entities attached to the scene, in the order they were added. *)
Definition entities (s : GameScene) : list Object3D :=
  omap (λ id, store s !! id) (children s).

(** ** GameController (the WebSocket client) *)

Inductive Message :=
  | StateUpdate (state : Snapshot)
  | GameStart (state : Snapshot)
  | ActionTaken (action : Action) (ai_info : jsval) (state : Snapshot)
  | GameEnded (data : GameOver)
  | Unhandled (type : string).

Inductive ConsoleLine :=
  | Log (line : string)
  | Error (line : string).

(** The client: the controller's fields, the HUD, the scene, the console
    and the move animations waiting for their next frame. [ws] is the
    socket, represented by the messages handed to [ws.send] so far. *)
Record Client := {
  ws : option (list string);
  isConnected : bool;
  gameState : option Snapshot;
  ui : UIState;
  scene : GameScene;
  console : list ConsoleLine;
  pending : list MoveAnimation
}.

Definition with_ui (f : UIState → UIState) (c : Client) : Client :=
  {| ws := ws c; isConnected := isConnected c; gameState := gameState c;
     ui := f (ui c); scene := scene c; console := console c;
     pending := pending c |}.

Definition with_scene (sc : GameScene) (c : Client) : Client :=
  {| ws := ws c; isConnected := isConnected c; gameState := gameState c;
     ui := ui c; scene := sc; console := console c; pending := pending c |}.

Definition with_state (st : Snapshot) (c : Client) : Client :=
  {| ws := ws c; isConnected := isConnected c; gameState := Some st;
     ui := ui c; scene := scene c; console := console c;
     pending := pending c |}.

Definition with_connected (b : bool) (c : Client) : Client :=
  {| ws := ws c; isConnected := b; gameState := gameState c;
     ui := ui c; scene := scene c; console := console c;
     pending := pending c |}.

Definition print (l : ConsoleLine) (c : Client) : Client :=
  {| ws := ws c; isConnected := isConnected c; gameState := gameState c;
     ui := ui c; scene := scene c; console := console c ++ [l];
     pending := pending c |}.

Definition await (a : option MoveAnimation) (c : Client) : Client :=
  {| ws := ws c; isConnected := isConnected c; gameState := gameState c;
     ui := ui c; scene := scene c; console := console c;
     pending := pending c ++ option_list a |}.

(** [this.ws.send(text)] on an existing socket. *)
Definition ws_send (text : string) (c : Client) : Client :=
  {| ws := (λ out : list string, (out ++ [text])%list) <$> ws c;
     isConnected := isConnected c; gameState := gameState c;
     ui := ui c; scene := scene c; console := console c;
     pending := pending c |}.

(** The client after [new UIController()], [new GameScene()] and
    [new GameController()]: the socket exists and is not yet open. *)
Definition client_initial : Client :=
  {| ws := Some []; isConnected := false; gameState := None;
     ui := ui_initial; scene := scene_initial 16; console := [];
     pending := [] |}.

Definition dquote : string := String "034"%char EmptyString.

(** [JSON.stringify] of an object whose values are strings without
    characters to escape. *)
Definition JSON_stringify (fields : list (string * string)) : string :=
  "{" +:+ String.concat ","
            (map (λ kv, dquote +:+ kv.1 +:+ dquote +:+ ":"
                        +:+ dquote +:+ kv.2 +:+ dquote) fields)
  +:+ "}".

Definition update_stats (st : Snapshot) (c : Client) : option Client :=
  ags ← agents st;
  Some (with_ui (updateAgentStats "instinct" (instinct ags))
          (with_ui (updateAgentStats "strategist" (strategist ags)) c)).

Definition handleStateUpdate (state : Snapshot) (c : Client) : option Client :=
  let c := with_state state c in
  sc ← buildScene state (scene c);
  let c := print (Log "✓ Scene built successfully with") (with_scene sc c) in
  let c := match agents state with
           | Some ags =>
               with_ui (updateAgentStats "instinct" (instinct ags))
                 (with_ui (updateAgentStats "strategist" (strategist ags)) c)
           | None => c
           end in
  Some (with_ui (updateTurn (turn state) (max_turns state)) c).

Definition handleGameStart (state : Snapshot) (c : Client) : option Client :=
  let c := with_state state (print (Log "Game started:") c) in
  sc ← buildScene state (scene c);
  c ← update_stats state (with_scene sc c);
  Some (with_ui (updateTurn (turn state) (max_turns state)) c).

Definition handleAction (action : Action) (ai_info : jsval) (state : Snapshot)
    (now : string) (clock : Z) (c : Client) : option Client :=
  let c := with_state state (print (Log "Action:") c) in
  c ← (if is_str (a_type action) "move" then
         '(sc, anim) ← moveAgent scene_js (to_string (a_agent action))
                         (a_to action) clock clock (scene c);
         Some (await anim (with_scene sc c))
       else if is_str (a_type action) "control_node"
               || is_str (a_type action) "capture_node" then
         sc ← updateLightNode scene_js (a_position action) (a_agent action)
                (scene c);
         Some (with_scene sc c)
       else Some c);
  sc ← for_each
         (λ fs sc, updateFuelStation scene_js (Some (fs_position fs))
                     (is_active fs) sc)
         (fuel_stations state) (scene c);
  c ← update_stats state (with_scene sc c);
  let c := with_ui (updateTurn (turn state) (max_turns state)) c in
  logMessage ← formatAction action ai_info;
  Some (with_ui (addLogEntry now logMessage) c).

Definition handleGameOver (data : GameOver) (now : string) (c : Client)
    : option Client :=
  let c := with_state (final_state data) (print (Log "Game over:") c) in
  c ← update_stats (final_state data) c;
  u ← showGameOver now data (ui c);
  Some (with_ui (λ _, u) c).

Definition handleMessage (message : Message) (now : string) (clock : Z)
    (c : Client) : option Client :=
  let c := print (Log "Received message:") c in
  match message with
  | StateUpdate state => handleStateUpdate state c
  | GameStart state => handleGameStart state c
  | ActionTaken action ai_info state =>
      handleAction action ai_info state now clock c
  | GameEnded data => handleGameOver data now c
  | Unhandled _ => Some c
  end.

Definition startGame (now : string) (c : Client) : Client :=
  if isConnected c && bool_decide (is_Some (ws c)) then
    ws_send (JSON_stringify [("command", "start")])
      (print (Log "Sending start command") c)
  else
    with_ui (addLogEntry now "Cannot start game - not connected to server.")
      (print (Error "WebSocket not connected") c).

Definition resetGame (c : Client) : Client :=
  if isConnected c && bool_decide (is_Some (ws c)) then
    ws_send (JSON_stringify [("command", "reset")]) c
  else c.

(** Everything that can run in the page after it has loaded: the four
    socket callbacks, the two commands, the start button with its timer
    and an animation frame. (The reset button reloads the page, which
    starts the client anew.) *)
Inductive Event :=
  | SocketOpen
  | SocketMessage (message : Message)
  | SocketError
  | SocketClose
  | StartGame
  | ResetGame
  | StartClicked
  | CinematicOver
  | Frame.

(** One frame: every waiting animation runs once and stays only if it
    asked for a further frame. *)
Definition run_frame (clock : Z) (c : Client) : Client :=
  let '(sc, waiting) :=
    foldl (λ (acc : GameScene * list MoveAnimation) a,
             let '(sc', again) := animate a clock acc.1 in
             (sc', if again then (acc.2 ++ [a])%list else acc.2))
          (scene c, []) (pending c) in
  {| ws := ws c; isConnected := isConnected c; gameState := gameState c;
     ui := ui c; scene := sc; console := console c; pending := waiting |}.

Definition step (e : Event) (now : string) (clock : Z) (c : Client)
    : option Client :=
  match e with
  | SocketOpen =>
      Some (with_ui (addLogEntry now "Connected to game server.")
              (with_connected true (print (Log "WebSocket connected") c)))
  | SocketMessage message => handleMessage message now clock c
  | SocketError =>
      Some (with_ui (addLogEntry now "Connection error. Please refresh.")
              (print (Error "WebSocket error:") c))
  | SocketClose =>
      Some (with_ui (addLogEntry now "Disconnected from server.")
              (with_connected false (print (Log "WebSocket disconnected") c)))
  | StartGame => Some (startGame now c)
  | ResetGame => Some (resetGame c)
  | StartClicked => Some (with_ui onStartGame c)
  | CinematicOver => Some (with_ui (cinematicDone now) c)
  | Frame => Some (run_frame clock c)
  end.

(** The messages sent to the server so far. *)
Definition sent (c : Client) : list string := default [] (ws c).

(** ** The core engine, as the specification describes it

    The game state, its rules and the searches run on the server, whose
    source (game_state.py, mcts_ai.py) is not part of the client. *)

Module Core.

Inductive AgentId := Strategist | Reactive.

Global Instance AgentId_eq_dec : EqDecision AgentId.
Proof. solve_decision. Defined.

Definition opponent (a : AgentId) : AgentId :=
  match a with Strategist => Reactive | Reactive => Strategist end.

Inductive Cell :=
  | OpenCell | Wall | Door | Window | Tree
  | FuelStationMarker | LightNodeMarker.

Inductive Direction := N | S | E | W.

Inductive Action :=
  | Move (d : Direction)
  | Refuel
  | ControlNode
  | Wait.

Global Instance Direction_eq_dec : EqDecision Direction.
Proof. solve_decision. Defined.

Global Instance Action_eq_dec : EqDecision Action.
Proof. solve_decision. Defined.

Record Agent := { position : Z * Z; fuel : Z }.

Record FuelStation := { station_at : Z * Z; capacity : Z; current : Z }.

Record LightNode := { node_at : Z * Z; controlledBy : option AgentId }.

Record Config := {
  gridSize : Z;
  maxTurns : Z;
  initialFuel : Z;
  maxFuel : Z;
  moveCost : Z;
  refuelAmount : Z;
  stationCapacity : Z;
  regenerationPeriod : Z;
  earlyVictory : bool
}.

Record GameState := {
  config : Config;
  terrain : Z * Z → Cell;
  strategist : Agent;
  reactive : Agent;
  stations : list FuelStation;
  nodes : list LightNode;
  turn : Z;
  activePlayer : AgentId
}.

Inductive Failure := IllegalAction | InvalidConfiguration.

Definition agent (s : GameState) (a : AgentId) : Agent :=
  match a with Strategist => strategist s | Reactive => reactive s end.

(** Modelled from the spec: [nodesControlled] is derived from the
    ownership recorded in the light nodes (game_state.py is missing). *)
Definition nodesControlled (s : GameState) (a : AgentId) : Z :=
  Z.of_nat (length (filter (λ n, controlledBy n = Some a) (nodes s))).

Definition isActive (st : FuelStation) : bool := 0 <? current st.

Definition in_bounds (c : Config) (p : Z * Z) : bool :=
  (0 <=? p.1) && (p.1 <? gridSize c) && (0 <=? p.2) && (p.2 <? gridSize c).

(** Modelled from the spec: open and marker cells are traversable, every
    other terrain blocks movement (the grid model is missing). *)
Definition isTraversable (s : GameState) (p : Z * Z) : bool :=
  in_bounds (config s) p &&
  match terrain s p with
  | OpenCell | FuelStationMarker | LightNodeMarker => true
  | Wall | Door | Window | Tree => false
  end.

Definition destination (p : Z * Z) (d : Direction) : Z * Z :=
  match d with
  | N => (p.1, p.2 - 1)
  | S => (p.1, p.2 + 1)
  | E => (p.1 + 1, p.2)
  | W => (p.1 - 1, p.2)
  end.

(** Modelled from the spec: the legality of each action, section 4.2,
    with the rule that an agent refuels and takes control on the cell it
    stands on (legalActions of game_state.py is missing). *)
Definition legal (s : GameState) (a : AgentId) (act : Action) : bool :=
  let me := agent s a in
  match act with
  | Move d =>
      let dest := destination (position me) d in
      isTraversable s dest
      && negb (bool_decide (position (agent s (opponent a)) = dest))
      && (moveCost (config s) <=? fuel me)
  | Refuel =>
      existsb (λ st, bool_decide (station_at st = position me) && isActive st)
        (stations s)
  | ControlNode =>
      existsb (λ n, bool_decide (node_at n = position me)
                    && negb (bool_decide (controlledBy n = Some a)))
        (nodes s)
  | Wait => true
  end.

(** Modelled from the spec: [legalActions] lists the actions that are
    legal for the agent (game_state.py is missing). *)
Definition legalActions (s : GameState) (a : AgentId) : list Action :=
  filter (λ act, legal s a act = true)
    [Move N; Move S; Move E; Move W; Refuel; ControlNode; Wait].

Definition set_agent (a : AgentId) (v : Agent) (s : GameState) : GameState :=
  {| config := config s; terrain := terrain s;
     strategist := match a with Strategist => v | Reactive => strategist s end;
     reactive := match a with Reactive => v | Strategist => reactive s end;
     stations := stations s; nodes := nodes s; turn := turn s;
     activePlayer := activePlayer s |}.

(** Modelled from the spec: what the station under the agent can give,
    the refuel amount or what is left when the station holds less
    (the refuel rule of game_state.py is missing). *)
Definition granted (s : GameState) (p : Z * Z) : Z :=
  match filter (λ st, station_at st = p ∧ isActive st = true) (stations s) with
  | st :: _ => Z.min (refuelAmount (config s)) (current st)
  | [] => 0
  end.

Definition deplete (amount : Z) (p : Z * Z) (st : FuelStation) : FuelStation :=
  if decide (station_at st = p ∧ isActive st = true)
  then {| station_at := station_at st; capacity := capacity st;
          current := Z.max 0 (current st - amount) |}
  else st.

Definition regenerate (st : FuelStation) : FuelStation :=
  {| station_at := station_at st; capacity := capacity st;
     current := Z.min (capacity st) (current st + 1) |}.

Definition capture (a : AgentId) (p : Z * Z) (n : LightNode) : LightNode :=
  if decide (node_at n = p)
  then {| node_at := node_at n; controlledBy := Some a |}
  else n.

(** Modelled from the spec: the effect of a legal action on the acting
    agent and the world, before the turn is advanced: a move costs
    [moveCost], a refuel grants fuel up to [maxFuel] and depletes the
    station, a control action transfers the node (the body of apply in
    game_state.py is missing). *)
Definition perform (act : Action) (a : AgentId) (s : GameState) : GameState :=
  let me := agent s a in
  match act with
  | Move d =>
      set_agent a {| position := destination (position me) d;
                     fuel := fuel me - moveCost (config s) |} s
  | Refuel =>
      let g := granted s (position me) in
      let s' := set_agent a
                  {| position := position me;
                     fuel := Z.min (maxFuel (config s)) (fuel me + g) |} s in
      {| config := config s'; terrain := terrain s';
         strategist := strategist s'; reactive := reactive s';
         stations := deplete g (position me) <$> stations s';
         nodes := nodes s'; turn := turn s';
         activePlayer := activePlayer s' |}
  | ControlNode =>
      {| config := config s; terrain := terrain s;
         strategist := strategist s; reactive := reactive s;
         stations := stations s;
         nodes := capture a (position me) <$> nodes s;
         turn := turn s; activePlayer := activePlayer s |}
  | Wait => s
  end.

(** Modelled from the spec: advance the turn, pass the move to the
    other agent and regenerate the stations by one unit, capped at
    their capacity, when the tick is due (game_state.py is missing). *)
Definition end_turn (s : GameState) : GameState :=
  let t := turn s + 1 in
  let due := (0 <? regenerationPeriod (config s))
             && (t mod regenerationPeriod (config s) =? 0) in
  {| config := config s; terrain := terrain s;
     strategist := strategist s; reactive := reactive s;
     stations := if due then regenerate <$> stations s else stations s;
     nodes := nodes s; turn := t;
     activePlayer := opponent (activePlayer s) |}.

(** Modelled from the spec: [apply] checks the action again and fails
    with [IllegalAction] when it is not legal (game_state.py is
    missing). *)
Definition apply (act : Action) (a : AgentId) (s : GameState)
    : Failure + GameState :=
  if legal s a act then inr (end_turn (perform act a s))
  else inl IllegalAction.

(** Modelled from the spec: the ranges a configuration must respect
    (config.py and the check in game_state.py are missing). *)
Definition valid (c : Config) : bool :=
  (0 <? gridSize c) && (0 <=? maxTurns c)
  && (0 <=? initialFuel c) && (initialFuel c <=? maxFuel c)
  && (0 <=? moveCost c) && (0 <=? refuelAmount c)
  && (0 <=? stationCapacity c) && (0 <=? regenerationPeriod c).

(** Modelled from the spec: a new match; a configuration out of range is
    refused before any turn (the constructor of game_state.py is
    missing). The placement is an input. *)
Definition create (c : Config) (land : Z * Z → Cell) (startS startR : Z * Z)
    (stationCells nodeCells : list (Z * Z)) : Failure + GameState :=
  if valid c
     && (Z.of_nat (length stationCells + length nodeCells)
           <=? gridSize c * gridSize c)
  then inr {| config := c; terrain := land;
              strategist := {| position := startS; fuel := initialFuel c |};
              reactive := {| position := startR; fuel := initialFuel c |};
              stations := (λ p, {| station_at := p;
                                   capacity := stationCapacity c;
                                   current := stationCapacity c |})
                          <$> stationCells;
              nodes := (λ p, {| node_at := p; controlledBy := None |})
                       <$> nodeCells;
              turn := 0; activePlayer := Strategist |}
  else inl InvalidConfiguration.

(** Modelled from the spec: the states a match can be in (the turn loop
    of main.py is missing): the created one and every state
    reached from it by an action that [apply] accepts. *)
Inductive reachable : GameState → Prop :=
  | reach_create c land pS pR sts nds s :
      create c land pS pR sts nds = inr s → reachable s
  | reach_apply s act a s' :
      reachable s → apply act a s = inr s' → reachable s'.

(** Modelled from the spec: the match ends at the turn cap or, when
    configured, once one agent controls every node (game_state.py is
    missing). *)
Definition isTerminal (s : GameState) : bool :=
  (maxTurns (config s) <=? turn s)
  || (earlyVictory (config s)
      && negb (bool_decide (nodes s = []))
      && (bool_decide (nodesControlled s Strategist = Z.of_nat (length (nodes s)))
          || bool_decide (nodesControlled s Reactive = Z.of_nat (length (nodes s))))).

Inductive Outcome := Winner (a : AgentId) | Draw.

(** The order "descending" refers to: first by nodes, then by fuel. *)
Definition standing (s : GameState) (a : AgentId) : Z * Z :=
  (nodesControlled s a, fuel (agent s a)).

Definition compare_standing (u v : Z * Z) : comparison :=
  match u.1 ?= v.1 with
  | Eq => u.2 ?= v.2
  | c => c
  end.

(** Modelled from the spec: [winner()] ranks the two agents by nodes
    controlled, then by remaining fuel, and answers Draw on a full tie
    (game_state.py is missing). *)
Definition winner (s : GameState) : Outcome :=
  match compare_standing (standing s Strategist) (standing s Reactive) with
  | Gt => Winner Strategist
  | Lt => Winner Reactive
  | Eq => Draw
  end.

(** Modelled from the spec: a node of the search tree of the reactive
    agent, with its statistics (mcts_ai.py is missing). *)
#[warnings="-register-all"]
Inductive Node := {
  action : option Action;
  visitCount : Z;
  totalReward : Q;
  kids : list Node
}.

Definition meanReward (n : Node) : Q := (totalReward n / inject_Z (visitCount n))%Q.

(** The first element of a list that no other element beats. *)
Fixpoint best {A : Type} (better : A → A → bool) (l : list A) : option A :=
  match l with
  | [] => None
  | a :: rest =>
      match best better rest with
      | Some b => if better b a then Some b else Some a
      | None => Some a
      end
  end.

(** Modelled from the spec: when the simulations are used up the search
    answers with the action of the most visited child of the root
    (mcts_ai.py is missing). *)
Definition chosenAction (root : Node) : option Action :=
  n ← best (λ b a, visitCount a <? visitCount b) (kids root);
  action n.

(** The choice the specification rules out: the child with the highest
    mean reward. *)
Definition greediestAction (root : Node) : option Action :=
  n ← best (λ b a, if Qlt_le_dec (meanReward a) (meanReward b)
                   then true else false) (kids root);
  action n.

(** *** What the statements about the core are made of *)

Definition sample_config : Config :=
  {| gridSize := 3; maxTurns := 4; initialFuel := 1; maxFuel := 5;
     moveCost := 1; refuelAmount := 2; stationCapacity := 3;
     regenerationPeriod := 2; earlyVictory := false |}.

(** A 3 x 3 field without obstacles: a station in the middle, a node in
    two corners, the agents in the other two. *)
Definition sample_game : GameState :=
  {| config := sample_config; terrain := λ _, OpenCell;
     strategist := {| position := (0, 0); fuel := 1 |};
     reactive := {| position := (2, 2); fuel := 1 |};
     stations := [{| station_at := (1, 1); capacity := 3; current := 3 |}];
     nodes := [{| node_at := (2, 0); controlledBy := None |};
               {| node_at := (0, 2); controlledBy := None |}];
     turn := 0; activePlayer := Strategist |}.

Definition sample_final : GameState :=
  {| config := sample_config; terrain := λ _, OpenCell;
     strategist := {| position := (2, 0); fuel := 0 |};
     reactive := {| position := (0, 2); fuel := 2 |};
     stations := [{| station_at := (1, 1); capacity := 3; current := 1 |}];
     nodes := [{| node_at := (2, 0); controlledBy := Some Strategist |};
               {| node_at := (0, 2); controlledBy := Some Reactive |}];
     turn := 4; activePlayer := Strategist |}.

(** What stays true of every state of a match: the configuration passed
    the validation, no fuel is negative and no station holds a negative
    amount. *)
Definition sound (s : GameState) : Prop :=
  valid (config s) = true
  ∧ 0 ≤ fuel (strategist s) ∧ 0 ≤ fuel (reactive s)
  ∧ Forall (λ st, 0 ≤ capacity st ∧ 0 ≤ current st) (stations s).

(** The sample match after the strategist has spent its only unit of
    fuel on a move east. *)
Definition sample_after_move : GameState :=
  end_turn (perform (Move E) Strategist sample_game).

Definition leaf (act : Action) (visits : Z) (reward : Q) : Node :=
  {| action := Some act; visitCount := visits; totalReward := reward;
     kids := [] |}.

(** A root after 13 simulations: moving east was tried 10 times with a
    mean reward of 0.2, taking the node 3 times with a mean of 0.9. *)
Definition sample_root : Node :=
  {| action := None; visitCount := 13; totalReward := 47 # 10;
     kids := [leaf (Move E) 10 2; leaf ControlNode 3 (27 # 10)] |}.

End Core.

(** ** What the statements about the client are made of *)

Definition sample_agent (n : Z) : AgentData :=
  {| position := {| pos_x := n; pos_y := n |}; fuel := JInt 7;
     nodes_controlled := JInt n; score := JOther "41.5" true |}.

Definition sample_agents : Agents :=
  {| strategist := sample_agent 0; instinct := sample_agent 2 |}.

(** A 3 x 3 grid that carries terrain only: a wall in one corner, the
    agents in two others, a station and a controlled node listed. *)
Definition sample_snapshot : Snapshot :=
  {| grid_size := 3;
     grid := [["empty"; "empty"; "wall"];
              ["empty"; "empty"; "empty"];
              ["empty"; "empty"; "empty"]];
     fuel_stations := [{| fs_position := {| pos_x := 1; pos_y := 0 |};
                          is_active := JBool true |}];
     light_nodes := [{| ln_position := {| pos_x := 0; pos_y := 1 |};
                        controlled_by := JStr "instinct" |}];
     agents := Some sample_agents;
     turn := JInt 100; max_turns := JInt 100 |}.

Definition sample_game_over (w : jsval) : GameOver :=
  {| winner := w; final_state := sample_snapshot;
     strategist_score := JInt 100; instinct_score := JOther "95.5" true |}.

Definition connected (c : Client) : bool :=
  isConnected c && bool_decide (is_Some (ws c)).

Definition at_cell (x y : Z) : Position := {| pos_x := x; pos_y := y |}.

Definition built_sample : GameScene :=
  default (scene_initial 16) (buildScene sample_snapshot (scene_initial 16)).

Fixpoint has_comma (s : string) : bool :=
  match s with
  | EmptyString => false
  | String c rest => bool_decide (c = ","%char) || has_comma rest
  end.

Global Instance Registry_eq_dec : EqDecision Registry.
Proof. solve_decision. Defined.

Global Instance Position_eq_dec : EqDecision Position.
Proof. solve_decision. Defined.

(** An entity to add: the registry and key it is recorded under. *)
Abbreviation Spawn := (Registry * string * Object3D)%type.

Definition spawn (s : GameScene) (b : Spawn) : GameScene :=
  add_entity b.1.1 b.1.2 b.2 s.

Definition spawn_all (bs : list Spawn) (s : GameScene) : GameScene :=
  foldl spawn s bs.

(** [gameState.grid[y][x]] *)
Definition cell_type (gameState : Snapshot) (x y : Z) : option string :=
  row ← grid gameState !! Z.to_nat y; row !! Z.to_nat x.

(** The cells in the order the two loops visit them. *)
Definition cells (gameState : Snapshot) : list (Position * option string) :=
  y ← seqZ 0 (grid_size gameState);
  (λ x, (at_cell x y, cell_type gameState x y)) <$> seqZ 0 (grid_size gameState).

(** The grid has a row for every [y] below [grid_size]. *)
Definition rows_present (gameState : Snapshot) : Prop :=
  ∀ y, 0 ≤ y < grid_size gameState →
       is_Some (grid gameState !! Z.to_nat y).

Definition wall_spawn (lk : Look) (cs : Z) (p : Position) : Spawn :=
  (REnvironment, key p,
   entity_at cs KWall p (5 # 4) (wall_colour lk) 0 0 JUndefined).

Definition station_spawn (lk : Look) (cs : Z) (p : Position) : Spawn :=
  (RFuelStations, key p,
   entity_at cs KFuelStation p 0 0xffaa00
     (station_emissive_on lk) (station_light_on lk) JUndefined).

Definition or_null (v : jsval) : jsval :=
  match v with JUndefined => JNull | _ => v end.

Definition node_spawn (lk : Look) (cs : Z) (p : Position) (owner : jsval)
    : Spawn :=
  (RLightNodes, key p,
   entity_at cs KLightNode p 0 (bulb_colour lk (or_null owner))
     (if truthy (or_null owner) then node_emissive_on lk
      else node_emissive_off lk)
     (if truthy (or_null owner) then node_light_on lk
      else node_light_off lk)
     (or_null owner)).

Definition agent_spawn (cs : Z) (name : string) (p : Position) (col : Z)
    : Spawn :=
  (RAgents, name, entity_at cs KAgent p 0 col (3 # 10) 1 JUndefined).

Definition agent_spawns (cs : Z) (ags : Agents) : list Spawn :=
  [agent_spawn cs "strategist" (position (strategist ags)) 0x00ff88;
   agent_spawn cs "instinct" (position (instinct ags)) 0xff00ff].

Definition wall_cells (gameState : Snapshot) : list Position :=
  (filter (λ c, c.2 = Some "wall") (cells gameState)).*1.

Definition plan_js (cs : Z) (gameState : Snapshot) (ags : Agents)
    : list Spawn :=
  (wall_spawn scene_js cs <$> wall_cells gameState)
  ++ ((λ fs, station_spawn scene_js cs (fs_position fs))
        <$> fuel_stations gameState)
  ++ ((λ n, node_spawn scene_js cs (ln_position n) (controlled_by n))
        <$> light_nodes gameState)
  ++ agent_spawns cs ags.

(** The scene on which [buildScene] of scene.js starts to add. *)
Definition cleared_js (gameState : Snapshot) (s : GameScene) : GameScene :=
  if bool_decide (grid_size gameState = 0) then clear_scene s
  else set_gridSize (grid_size gameState) (clear_scene s).

(** Every entity in the scene has been allocated and is recorded in a
    registry. *)
Definition registered (s : GameScene) : Prop :=
  ∀ i, i ∈ children s →
       (i < length (store s))%nat ∧ ∃ r k, registry r s !! k = Some i.

(** The stations of a snapshot stand on different cells, its light
    nodes too, its grid has [grid_size] rows and both agents are
    present. *)
Definition well_formed (gameState : Snapshot) : Prop :=
  rows_present gameState
  ∧ is_Some (agents gameState)
  ∧ NoDup (fs_position <$> fuel_stations gameState)
  ∧ NoDup (ln_position <$> light_nodes gameState).

(** The scenes of scene.js: the constructed one, and what [buildScene]
    on a well-formed snapshot, the three update methods and the frames
    of a move make of a scene. *)
Inductive scene_reachable : GameScene → Prop :=
  | reach_initial size : scene_reachable (scene_initial size)
  | reach_build gameState s s' :
      scene_reachable s → well_formed gameState →
      buildScene gameState s = Some s' → scene_reachable s'
  | reach_light position owner s s' :
      scene_reachable s →
      updateLightNode scene_js position owner s = Some s' →
      scene_reachable s'
  | reach_station position isActive s s' :
      scene_reachable s →
      updateFuelStation scene_js position isActive s = Some s' →
      scene_reachable s'
  | reach_move agentType target started now s s' waiting :
      scene_reachable s →
      moveAgent scene_js agentType target started now s = Some (s', waiting) →
      scene_reachable s'
  | reach_frame a now s :
      scene_reachable s → scene_reachable (animate a now s).1.

(** What is seen of an entity: its kind, where it stands and, for a
    light node, who controls it (a missing controller counts as null). *)
Definition shown (o : Object3D) : Kind * Q * Q * jsval :=
  (kind o, at_x o, at_z o, or_null (controlledBy o)).

(** An entity of kind [k] standing in the middle of cell [p]. *)
Definition placed (cs : Z) (k : Kind) (p : Position) (owner : jsval)
    : Kind * Q * Q * jsval :=
  (k, cell_centre cs (pos_x p), cell_centre cs (pos_y p), or_null owner).

(** Why the snapshots are taken to be well formed. A registry has one
    entry per cell: of two stations listed on one cell it keeps the
    second, and the first then stays in the scene through the next
    build. *)
Definition snapshot_with_twins : Snapshot :=
  {| grid_size := 3;
     grid := [["empty"; "empty"; "wall"];
              ["empty"; "empty"; "empty"];
              ["empty"; "empty"; "empty"]];
     fuel_stations := [{| fs_position := at_cell 1 0; is_active := JBool true |};
                       {| fs_position := at_cell 1 0; is_active := JBool true |}];
     light_nodes := [];
     agents := Some sample_agents;
     turn := JInt 0; max_turns := JInt 100 |}.

Definition door_spawn (cs : Z) (p : Position) : Spawn :=
  (REnvironment, key p,
   entity_at cs KDoor p (11 # 10) 0x3a4a5a 0 0 JUndefined).

Definition window_spawn (cs : Z) (p : Position) : Spawn :=
  (REnvironment, key p,
   entity_at cs KWindow p (3 # 2) 0x88aacc 0 0 JUndefined).

Definition tree_spawn (cs : Z) (p : Position) : Spawn :=
  (REnvironment, key p, entity_at cs KTree p 0 0x1a3a1a 0 0 JUndefined).

Definition cell_spawns_001 (cs : Z) (c : Position * option string)
    : list Spawn :=
  if bool_decide (c.2 = Some "wall") then [wall_spawn part_001 cs c.1]
  else if bool_decide (c.2 = Some "door") then [door_spawn cs c.1]
  else if bool_decide (c.2 = Some "window") then [window_spawn cs c.1]
  else if bool_decide (c.2 = Some "tree") then [tree_spawn cs c.1]
  else if bool_decide (c.2 = Some "fuel_station")
       then [station_spawn part_001 cs c.1]
  else if bool_decide (c.2 = Some "light_node")
       then [node_spawn part_001 cs c.1 JUndefined]
  else [].

Definition plan_001 (cs : Z) (gameState : Snapshot) (ags : Agents)
    : list Spawn :=
  (cells gameState ≫= cell_spawns_001 cs) ++ agent_spawns cs ags.

(** [updateLightNode] at a position that exists: it cannot throw. *)
Definition relight_at (lk : Look) (p : Position) (owner : jsval)
    (s : GameScene) : GameScene :=
  match lightNodes s !! key p with
  | Some id => set_store (alter (relight lk owner) id (store s)) s
  | None => s
  end.

Definition relit (nodes : list LightNodeData) (s : GameScene) : GameScene :=
  foldl (λ s n, relight_at part_001 (ln_position n) (controlled_by n) s)
    s nodes.

(** The entity a spawn has become once the light nodes were updated. *)
Definition relit_spawn (nodes : list LightNodeData) (b : Spawn) : Object3D :=
  if decide (b.1.1 = RLightNodes)
  then foldl (λ o n, if decide (key (ln_position n) = b.1.2)
                     then relight part_001 (controlled_by n) o else o)
         b.2 nodes
  else b.2.

(** The controller that the updates of part_001 leave on the node of
    cell [p]: that of the last listed node standing there, or none. *)
Definition owner_at (nodes : list LightNodeData) (p : Position) : jsval :=
  foldl (λ acc n, if decide (ln_position n = p) then controlled_by n else acc)
    JNull nodes.

(** The grid marks with 'fuel_station' and 'light_node' exactly the cells
    of the listed stations and nodes. *)
Definition markers_match (gameState : Snapshot) : Prop :=
  (∀ p, p ∈ fs_position <$> fuel_stations gameState
        ↔ (p, Some "fuel_station") ∈ cells gameState)
  ∧ (∀ p, p ∈ ln_position <$> light_nodes gameState
          ↔ (p, Some "light_node") ∈ cells gameState).

(** A 3 x 3 grid with a wall, a door, and markers on the cells of the
    listed station and node. *)
Definition snapshot_with_door : Snapshot :=
  {| grid_size := 3;
     grid := [["empty"; "fuel_station"; "wall"];
              ["light_node"; "door"; "empty"];
              ["empty"; "empty"; "empty"]];
     fuel_stations := [{| fs_position := at_cell 1 0;
                          is_active := JBool true |}];
     light_nodes := [{| ln_position := at_cell 0 1;
                        controlled_by := JStr "instinct" |}];
     agents := Some sample_agents;
     turn := JInt 0; max_turns := JInt 100 |}.

(** The two scenes show the same entities. *)
Definition same_rendering (a b : GameScene) : Prop :=
  ∀ d, d ∈ shown <$> entities a ↔ d ∈ shown <$> entities b.

(** ** The camera controls of scene.js *)

Record Camera := { cam_x : Q; cam_y : Q; cam_z : Q }.

(** What [setupControls] keeps: the camera position and the two
    variables of its closure. Offsets and wheel deltas are numbers of
    the browser, taken as exact rationals. *)
Record Controls := {
  camera : Camera;
  isDragging : bool;
  previousMousePosition : Q * Q
}.

(** The camera after [init]: [position.set(gridSize * 1.5, ...)]. *)
Definition controls_initial (size : Z) : Controls :=
  {| camera := {| cam_x := inject_Z size * (3 # 2);
                  cam_y := inject_Z size * (3 # 2);
                  cam_z := inject_Z size * (3 # 2) |};
     isDragging := false; previousMousePosition := (0, 0)%Q |}.

Definition mousedown (offsetX offsetY : Q) (k : Controls) : Controls :=
  {| camera := camera k; isDragging := true;
     previousMousePosition := (offsetX, offsetY) |}.

(** [rotationSpeed] is 0.01; the camera moves by [delta * 0.01 * 3]. *)
Definition mousemove (offsetX offsetY : Q) (k : Controls) : Controls :=
  let cam :=
    if isDragging k then
      let deltaX := (offsetX - (previousMousePosition k).1)%Q in
      let deltaY := (offsetY - (previousMousePosition k).2)%Q in
      {| cam_x := (cam_x (camera k) + deltaX * (1 # 100) * 3)%Q;
         cam_y := cam_y (camera k);
         cam_z := (cam_z (camera k) + deltaY * (1 # 100) * 3)%Q |}
    else camera k in
  {| camera := cam; isDragging := isDragging k;
     previousMousePosition := (offsetX, offsetY) |}.

Definition mouseup (k : Controls) : Controls :=
  {| camera := camera k; isDragging := false;
     previousMousePosition := previousMousePosition k |}.

Definition mouseleave (k : Controls) : Controls :=
  {| camera := camera k; isDragging := false;
     previousMousePosition := previousMousePosition k |}.

(** The wheel handler: two units up or down, kept between 10 and 50. *)
Definition wheel (deltaY : Q) (k : Controls) : Controls :=
  let zoomSpeed := 2%Q in
  let direction := if Qlt_le_dec 0 deltaY then 1%Q else (-1)%Q in
  let y := (cam_y (camera k) + direction * zoomSpeed)%Q in
  {| camera := {| cam_x := cam_x (camera k);
                  cam_y := Qmax 10 (Qmin 50 y);
                  cam_z := cam_z (camera k) |};
     isDragging := isDragging k;
     previousMousePosition := previousMousePosition k |}.

Inductive MouseEvent :=
  | MouseDown (offsetX offsetY : Q)
  | MouseMove (offsetX offsetY : Q)
  | MouseUp
  | MouseLeave
  | Wheel (deltaY : Q).

Definition on_mouse (k : Controls) (e : MouseEvent) : Controls :=
  match e with
  | MouseDown x y => mousedown x y k
  | MouseMove x y => mousemove x y k
  | MouseUp => mouseup k
  | MouseLeave => mouseleave k
  | Wheel d => wheel d k
  end.

(** ** Runs of the page *)

(** Events one after the other, each with the clock readings of its
    handler; the run stops at the first handler that throws. *)
Definition run (es : list (Event * string * Z)) (c : Client) : option Client :=
  for_each (λ x c, step x.1.1 x.1.2 x.2 c) es c.

(** Whether the socket is open after the events, if it was [b] before:
    the last open or close decides. *)
Definition link_after (es : list (Event * string * Z)) (b : bool) : bool :=
  foldl (λ b x, match x.1.1 with
                | SocketOpen => true
                | SocketClose => false
                | _ => b
                end) b es.

(** A snapshot with other light nodes, or other stations. *)
Definition with_light_nodes (l : list LightNodeData) (st : Snapshot)
    : Snapshot :=
  {| grid_size := grid_size st; grid := grid st;
     fuel_stations := fuel_stations st; light_nodes := l;
     agents := agents st; turn := turn st; max_turns := max_turns st |}.

Definition with_fuel_stations (l : list FuelStationData) (st : Snapshot)
    : Snapshot :=
  {| grid_size := grid_size st; grid := grid st;
     fuel_stations := l; light_nodes := light_nodes st;
     agents := agents st; turn := turn st; max_turns := max_turns st |}.

(** [updateFuelStation] at a position that exists, and the loop of
    [handleAction] over the stations of the new state. *)
Definition restation_at (lk : Look) (p : Position) (isActive : jsval)
    (s : GameScene) : GameScene :=
  match fuelStations s !! key p with
  | Some id => set_store (alter (restation lk isActive) id (store s)) s
  | None => s
  end.

Definition restationed (stations : list FuelStationData) (s : GameScene)
    : GameScene :=
  foldl (λ s fs, restation_at scene_js (fs_position fs) (is_active fs) s)
    s stations.

(** What is seen of an entity apart from the strength of its lamp,
    which a pulse moves for half a second after an update. *)
Definition appearance (o : Object3D) : Kind * Q * Q * Q * Z * Q * jsval :=
  (kind o, at_x o, at_y o, at_z o, colour o, emissiveIntensity o,
   or_null (controlledBy o)).

(** The snapshot in which the [j]-th listed light node has passed to
    [owner]. *)
Definition with_owner (j : nat) (owner : jsval) (st : Snapshot) : Snapshot :=
  with_light_nodes
    (alter (λ n, {| ln_position := ln_position n; controlled_by := owner |})
       j (light_nodes st)) st.


(** The text and time of an entry of the action log. *)
Definition log_entry (now message : string) : string :=
  "[" +:+ now +:+ "] " +:+ message.

Definition sample_move : Action :=
  {| a_type := JStr "move"; a_agent := JStr "strategist";
     a_to := Some {| pos_x := 1; pos_y := 0 |}; a_position := None;
     fuel_gained := JUndefined; new_fuel := JUndefined;
     from_agent := JUndefined |}.

(* ===================================================================== *)
(** * Part II: properties *)
(* ===================================================================== *)

(** ** The action log *)

Lemma trim_log_drop l : trim_log l = drop (length l - 20) l.
Proof.
  induction l as [|a l IH]; [done|].
  cbn [trim_log]. destruct (Nat.ltb_spec 20 (length (a :: l))) as [H|H].
  - rewrite IH. cbn [length] in *.
    replace (S (length l) - 20)%nat with (S (length l - 20)) by lia. done.
  - replace (length (a :: l) - 20)%nat with 0%nat by lia. done.
Qed.

Lemma last_drop_lt {A} (l : list A) n :
  (n < length l)%nat → last (drop n l) = last l.
Proof.
  intros H. rewrite !last_lookup, lookup_drop, length_drop. f_equal. lia.
Qed.

Lemma actionLog_addLogEntry now message u :
  actionLog (addLogEntry now message u)
  = trim_log (actionLog u ++ ["[" +:+ now +:+ "] " +:+ message]).
Proof. done. Qed.

(** C10. After [addLogEntry] the log has at most 20 entries: it is the
    old log followed by the new entry, with the oldest entries dropped
    from the front until 20 are left, so the entries kept are the most
    recent ones, in the order they were added, and the new entry is the
    last. *)
Theorem addLogEntry_keeps_latest now message (u : UIState) :
  let entry := "[" +:+ now +:+ "] " +:+ message in
  let log := actionLog (addLogEntry now message u) in
  (length log ≤ 20)%nat
  ∧ log = drop (length (actionLog u ++ [entry]) - 20) (actionLog u ++ [entry])
  ∧ log `suffix_of` actionLog u ++ [entry]
  ∧ last log = Some entry.
Proof.
  intros entry log. subst log. rewrite actionLog_addLogEntry.
  fold entry. rewrite trim_log_drop.
  set (all := actionLog u ++ [entry]).
  assert (Hlen : length all = S (length (actionLog u))).
  { unfold all. rewrite length_app. cbn. lia. }
  split_and!.
  - rewrite length_drop. lia.
  - done.
  - apply suffix_drop.
  - rewrite last_drop_lt by lia. unfold all. apply last_snoc.
Qed.

(** Adding entries one after the other to an empty log leaves the last
    20 of them. *)
Lemma addLogEntry_many (entries : list (string * string)) (u : UIState) :
  actionLog u = [] →
  let texts := (λ e, "[" +:+ e.1 +:+ "] " +:+ e.2) <$> entries in
  actionLog (foldl (λ u e, addLogEntry e.1 e.2 u) u entries)
  = drop (length texts - 20) texts.
Proof.
  intros Hu texts. subst texts.
  assert (G : ∀ es u0 pre,
    actionLog u0 = drop (length pre - 20) pre →
    actionLog (foldl (λ u e, addLogEntry e.1 e.2 u) u0 es)
    = drop (length (pre ++ ((λ e, "[" +:+ e.1 +:+ "] " +:+ e.2) <$> es)) - 20)
        (pre ++ ((λ e, "[" +:+ e.1 +:+ "] " +:+ e.2) <$> es))).
  { induction es as [|e es IH]; intros u0 pre H0; cbn [foldl fmap list_fmap].
    - by rewrite app_nil_r.
    - rewrite (IH _ (pre ++ ["[" +:+ e.1 +:+ "] " +:+ e.2])).
      + by rewrite <- app_assoc.
      + rewrite actionLog_addLogEntry, trim_log_drop, H0.
        rewrite !length_app, length_drop. cbn [length].
        destruct (decide (length pre ≤ 20)%nat).
        * replace (length pre - 20)%nat with 0%nat by lia.
          rewrite drop_0, Nat.sub_0_r. done.
        * rewrite (drop_app_le pre) by lia.
          rewrite drop_app_le by (rewrite length_drop; lia).
          rewrite drop_drop. do 2 f_equal. lia. }
  rewrite (G entries u []); [done|]. by rewrite Hu.
Qed.

Example addLogEntry_21 :
  actionLog (foldl (λ u n, addLogEntry "t" (pretty n) u) ui_initial (seqZ 1 21))
  = (λ n, "[t] " +:+ pretty n) <$> seqZ 2 20.
Proof. vm_compute. reflexivity. Qed.

(** ** formatAction *)

Example formatAction_move :
  formatAction
    {| a_type := JStr "move"; a_agent := JStr "strategist";
       a_to := Some {| pos_x := 3; pos_y := 4 |}; a_position := None;
       fuel_gained := JUndefined; new_fuel := JUndefined;
       from_agent := JUndefined |} JNull
  = Some "Unit S moved to (3, 4)".
Proof. reflexivity. Qed.

Example formatAction_capture :
  formatAction
    {| a_type := JStr "capture_node"; a_agent := JStr "instinct";
       a_to := None; a_position := Some {| pos_x := 0; pos_y := 11 |};
       fuel_gained := JUndefined; new_fuel := JUndefined;
       from_agent := JStr "strategist" |} JNull
  = Some "Unit I captured node from Unit S at (0, 11)".
Proof. reflexivity. Qed.

Example formatAction_move_without_target :
  formatAction
    {| a_type := JStr "move"; a_agent := JStr "strategist";
       a_to := None; a_position := None;
       fuel_gained := JUndefined; new_fuel := JUndefined;
       from_agent := JUndefined |} JNull
  = None.
Proof. reflexivity. Qed.



(** ** The game-over screen *)

Lemma textContent_addLogEntry now message u :
  textContent (addLogEntry now message u) = textContent u.
Proof. done. Qed.

Ltac read_text :=
  repeat first
    [ rewrite textContent_addLogEntry
    | progress cbn [textContent set_text set_color class_add ui with_ui
                    with_state print]
    | rewrite lookup_insert_eq
    | rewrite lookup_insert_ne by (intros ?; discriminate) ].

(** C1. Handling a [game_over] message shows the winner the message
    names: 'strategist' gives the Unit S line, 'instinct' the Unit I
    line and any other value the draw line; the four final figures are
    the node counts of the two agents in [final_state] and the two
    scores of the message, converted to text and otherwise unchanged. *)
Theorem game_over_shows_winner (data : GameOver) (ags : Agents) now clock
    (c : Client) :
  agents (final_state data) = Some ags →
  ∃ c', handleMessage (GameEnded data) now clock c = Some c'
    ∧ (winner data = JStr "strategist" →
       textContent (ui c') !! "winner-text"
       = Some "⚙️ UNIT S (STRATEGIST) WINS")
    ∧ (winner data = JStr "instinct" →
       textContent (ui c') !! "winner-text"
       = Some "🎯 UNIT I (INSTINCT) WINS")
    ∧ (winner data ≠ JStr "strategist" → winner data ≠ JStr "instinct" →
       textContent (ui c') !! "winner-text"
       = Some "🤝 DRAW - EQUAL PERFORMANCE")
    ∧ textContent (ui c') !! "final-strategist-nodes"
      = Some (as_text (nodes_controlled (strategist ags)))
    ∧ textContent (ui c') !! "final-instinct-nodes"
      = Some (as_text (nodes_controlled (instinct ags)))
    ∧ textContent (ui c') !! "final-strategist-score"
      = Some (as_text (strategist_score data))
    ∧ textContent (ui c') !! "final-instinct-score"
      = Some (as_text (instinct_score data))
    ∧ "show" ∈ classes_of "game-over" (ui c').
Proof.
  intros Hags.
  unfold handleMessage, handleGameOver, update_stats, showGameOver.
  cbn [gameState with_state print]. rewrite Hags. cbn [mbind option_bind].
  eexists; split; [reflexivity|].
  assert (Hyes : ∀ v lit, is_str v lit = true → v = JStr lit).
  { intros v lit. destruct v; try done. cbn.
    intros ->%bool_decide_eq_true. done. }
  assert (Hno : ∀ v lit, is_str v lit = false → v ≠ JStr lit).
  { intros v lit Hv ->. cbn in Hv. by apply bool_decide_eq_false in Hv. }
  destruct (is_str (winner data) "strategist") eqn:E1;
    [|destruct (is_str (winner data) "instinct") eqn:E2].
  all: split_and!;
    [ intros Hw | intros Hw | intros Hw1 Hw2 | | | | | ];
    try (rewrite Hw in *; discriminate);
    try (apply Hyes in E1; congruence);
    try (apply Hyes in E2; congruence);
    try (read_text; done).
  all: unfold classes_of; cbn; rewrite lookup_insert_eq; cbn; set_solver.
Qed.

Lemma game_over_shows_winner_witness :
  ∃ c', handleMessage (GameEnded (sample_game_over (JStr "instinct")))
          "12:00:00" 0 client_initial = Some c'
    ∧ textContent (ui c') !! "winner-text"
      = Some "🎯 UNIT I (INSTINCT) WINS"
    ∧ textContent (ui c') !! "final-instinct-nodes" = Some "2"
    ∧ textContent (ui c') !! "final-instinct-score" = Some "95.5".
Proof.
  destruct (game_over_shows_winner (sample_game_over (JStr "instinct"))
              sample_agents "12:00:00" 0 client_initial eq_refl)
    as (c' & Hc & _ & Hwins & _ & _ & Hnodes & _ & Hscore & _).
  exists c'. split_and!; [exact Hc | by apply Hwins | exact Hnodes | exact Hscore].
Defined.

Example game_over_log_line :
  actionLog <$> showGameOver "12:00:00" (sample_game_over JNull) ui_initial
  = Some ["[12:00:00] GAME OVER - Winner: DRAW"].
Proof. vm_compute. reflexivity. Qed.

(** ** Commands sent to the server *)

Lemma handleMessage_ws message now clock c c' :
  handleMessage message now clock c = Some c' → ws c' = ws c.
Proof.
  unfold handleMessage, handleStateUpdate, handleGameStart, handleAction,
    handleGameOver, update_stats.
  intros H. destruct message; simplify_option_eq;
    repeat (case_match; simplify_option_eq); done.
Qed.

Lemma run_frame_ws clock c : ws (run_frame clock c) = ws c.
Proof. unfold run_frame. by destruct (foldl _ _ _). Qed.

(** C4. Whatever runs in the page, the messages handed to the socket
    grow only by [startGame] and [resetGame], and only while the socket
    is connected: [startGame] appends the text {"command":"start"},
    [resetGame] the text {"command":"reset"}. When the socket is not
    connected [startGame] sends nothing and reports the error on the
    console and in the log, and [resetGame] does nothing at all. *)
Theorem only_start_and_reset_are_sent (e : Event) now clock (c c' : Client) :
  step e now clock c = Some c' →
  let command (name : string) :=
    "{" +:+ dquote +:+ "command" +:+ dquote +:+ ":"
        +:+ dquote +:+ name +:+ dquote +:+ "}" in
  sent c' = sent c ++
            match e with
            | StartGame => if connected c then [command "start"] else []
            | ResetGame => if connected c then [command "reset"] else []
            | _ => []
            end
  ∧ (e = StartGame → connected c = false →
     console c' = console c ++ [Error "WebSocket not connected"]
     ∧ last (actionLog (ui c'))
       = Some ("[" +:+ now +:+ "] Cannot start game - not connected to server."))
  ∧ (e = ResetGame → connected c = false → c' = c).
Proof.
  intros Hstep command. unfold sent.
  destruct e; cbn [step] in Hstep; simplify_eq.
  all: try (split_and!; [by rewrite app_nil_r | done | done]).
  - apply handleMessage_ws in Hstep. rewrite Hstep.
    split_and!; [by rewrite app_nil_r | done | done].
  - unfold startGame, connected. fold (connected c).
    destruct (connected c) eqn:Hc.
    + split_and!; [|done|done].
      unfold connected in Hc. apply andb_prop in Hc as [_ Hws].
      apply bool_decide_eq_true in Hws as [out Hws].
      cbn. rewrite Hws. done.
    + split_and!; [by rewrite app_nil_r| |done].
      intros _ _. split; [done|].
      cbn [ui with_ui]. rewrite actionLog_addLogEntry, trim_log_drop.
      rewrite last_drop_lt by (rewrite length_app; cbn; lia).
      apply last_snoc.
  - unfold resetGame, connected. fold (connected c).
    destruct (connected c) eqn:Hc.
    + split_and!; [|done|done].
      unfold connected in Hc. apply andb_prop in Hc as [_ Hws].
      apply bool_decide_eq_true in Hws as [out Hws].
      cbn. rewrite Hws. done.
    + split_and!; [by rewrite app_nil_r|done|done].
  - rewrite run_frame_ws. split_and!; [by rewrite app_nil_r | done | done].
Qed.

Lemma only_start_and_reset_are_sent_witness :
  sent (startGame "12:00:00" (with_connected true client_initial))
  = [ "{" +:+ dquote +:+ "command" +:+ dquote +:+ ":"
          +:+ dquote +:+ "start" +:+ dquote +:+ "}" ].
Proof.
  exact (proj1 (only_start_and_reset_are_sent StartGame "12:00:00" 0
                  (with_connected true client_initial) _ eq_refl)).
Defined.

Example start_while_disconnected :
  sent (startGame "12:00:00" client_initial) = []
  ∧ console (startGame "12:00:00" client_initial)
    = [Error "WebSocket not connected"].
Proof. done. Qed.

(** ** The core engine: winner, fuel and the final choice of the search *)

Section CoreRules.
Import Core.

Lemma sample_game_created :
  create sample_config (λ _, OpenCell) (0, 0) (2, 2) [(1, 1)] [(2, 0); (0, 2)]
  = inr sample_game.
Proof. reflexivity. Qed.

Lemma compare_standing_spec (u v : Z * Z) :
  match compare_standing u v with
  | Gt => u.1 > v.1 ∨ (u.1 = v.1 ∧ u.2 > v.2)
  | Lt => u.1 < v.1 ∨ (u.1 = v.1 ∧ u.2 < v.2)
  | Eq => u.1 = v.1 ∧ u.2 = v.2
  end.
Proof.
  unfold compare_standing.
  destruct (Z.compare_spec u.1 v.1); destruct (Z.compare_spec u.2 v.2); lia.
Qed.

(** C2. In every game state, so in every terminal one, [winner] names
    the agent that controls more nodes; with equal node counts the
    agent with more fuel left; and Draw when both are equal. *)
Theorem winner_by_nodes_then_fuel (s : GameState) :
  let nS := nodesControlled s Strategist in
  let nR := nodesControlled s Reactive in
  let fS := fuel (strategist s) in
  let fR := fuel (reactive s) in
  (nS > nR → winner s = Winner Strategist)
  ∧ (nS < nR → winner s = Winner Reactive)
  ∧ (nS = nR → fS > fR → winner s = Winner Strategist)
  ∧ (nS = nR → fS < fR → winner s = Winner Reactive)
  ∧ (nS = nR → fS = fR → winner s = Draw).
Proof.
  intros nS nR fS fR. unfold winner.
  pose proof (compare_standing_spec (standing s Strategist)
                (standing s Reactive)) as H.
  unfold standing in *. cbn [fst snd agent] in H.
  fold nS nR fS fR in H.
  destruct (compare_standing _ _); split_and!; intros; try done; lia.
Qed.

Lemma winner_by_nodes_then_fuel_witness :
  isTerminal sample_final = true ∧ winner sample_final = Winner Reactive.
Proof.
  split; [reflexivity|].
  apply (winner_by_nodes_then_fuel sample_final); [reflexivity | cbn; lia].
Defined.

Lemma valid_bounds c :
  valid c = true →
  0 ≤ initialFuel c ≤ maxFuel c ∧ 0 ≤ moveCost c ∧ 0 ≤ refuelAmount c
  ∧ 0 ≤ stationCapacity c.
Proof. unfold valid. rewrite !andb_true_iff. lia. Qed.

Lemma granted_nonneg s p : sound s → 0 ≤ granted s p.
Proof.
  intros (Hv & _ & _ & Hst). apply valid_bounds in Hv. unfold granted.
  destruct (filter _ _) as [|st l] eqn:E; [lia|].
  assert (Hin : st ∈ filter (λ st, station_at st = p ∧ isActive st = true)
                  (stations s)) by (rewrite E; left).
  apply list_elem_of_filter in Hin as [_ Hin].
  rewrite Forall_forall in Hst. apply Hst in Hin. lia.
Qed.

Lemma sound_create c land pS pR sts nds s :
  create c land pS pR sts nds = inr s → sound s.
Proof.
  unfold create. destruct (valid c && _) eqn:E; [|done].
  apply andb_prop in E as [Hv _]. intros [= <-].
  pose proof (valid_bounds _ Hv). unfold sound; cbn.
  split_and!; [done|lia|lia|].
  apply Forall_fmap, Forall_true. intros p. cbn. lia.
Qed.

Lemma sound_end_turn s : sound s → sound (end_turn s).
Proof.
  intros (Hv & HS & HR & Hst). unfold sound, end_turn; cbn.
  split_and!; [done..|].
  destruct (_ && _); [|done].
  apply Forall_fmap. eapply Forall_impl; [exact Hst|].
  intros st [? ?]. cbn. lia.
Qed.

Lemma sound_perform act a s :
  sound s → legal s a act = true → sound (perform act a s).
Proof.
  intros Hs Hl. pose proof (granted_nonneg s (position (agent s a)) Hs) as Hg.
  destruct Hs as (Hv & HS & HR & Hst).
  pose proof (valid_bounds _ Hv) as Hb.
  destruct act as [d| | |]; cbn [perform].
  - cbn [legal] in Hl. rewrite !andb_true_iff in Hl.
    destruct Hl as [_ Hfuel]. apply Z.leb_le in Hfuel.
    unfold sound; destruct a; cbn [agent] in Hfuel; cbn;
      split_and!; try done; lia.
  - unfold sound; destruct a; cbn [agent] in Hg; cbn;
      split_and!; try done; try lia.
    all: apply Forall_fmap; eapply Forall_impl; [exact Hst|].
    all: intros st [? ?]; unfold compose, deplete; destruct (decide _); cbn; lia.
  - unfold sound; cbn. done.
  - done.
Qed.

Lemma sound_apply act a s s' : sound s → apply act a s = inr s' → sound s'.
Proof.
  unfold apply. intros Hs. destruct (legal s a act) eqn:Hl; [|done].
  intros [= <-]. by apply sound_end_turn, sound_perform.
Qed.

Lemma reachable_sound s : reachable s → sound s.
Proof.
  induction 1; eauto using sound_create, sound_apply.
Qed.

(** C3. In every state a match can reach, the fuel of both agents is at
    least 0; a move is not among the legal actions of an agent whose
    fuel is below the move cost; and so every action that [apply]
    accepts leads to a state where again no fuel is negative. *)
Theorem fuel_never_negative (s : GameState) :
  reachable s →
  (∀ a, 0 ≤ fuel (agent s a))
  ∧ (∀ a d, fuel (agent s a) < moveCost (config s) →
            legal s a (Move d) = false ∧ Move d ∉ legalActions s a)
  ∧ (∀ act a s', apply act a s = inr s' → ∀ b, 0 ≤ fuel (agent s' b)).
Proof.
  intros Hr. pose proof (reachable_sound _ Hr) as Hs. split_and!.
  - destruct Hs as (_ & ? & ? & _). by intros [].
  - intros a d Hlow.
    assert (Hl : legal s a (Move d) = false).
    { cbn [legal]. apply andb_false_iff. right. by apply Z.leb_gt. }
    split; [done|]. unfold legalActions.
    rewrite list_elem_of_filter. intros [Hl' _]. congruence.
  - intros act a s' Happ b.
    destruct (sound_apply _ _ _ _ Hs Happ) as (_ & ? & ? & _). by destruct b.
Qed.

Lemma sample_after_move_reachable : reachable sample_after_move.
Proof.
  eapply reach_apply with (s := sample_game) (act := Move E) (a := Strategist).
  - eapply reach_create, sample_game_created.
  - reflexivity.
Qed.

Lemma fuel_never_negative_witness :
  fuel (agent sample_after_move Strategist) = 0
  ∧ legalActions sample_after_move Strategist = [Wait]
  ∧ Move W ∉ legalActions sample_after_move Strategist.
Proof.
  split; [reflexivity|]. split; [reflexivity|].
  destruct (fuel_never_negative sample_after_move sample_after_move_reachable)
    as (_ & Hmove & _).
  apply (Hmove Strategist W). cbn. lia.
Defined.

Example apply_rejects_illegal_move :
  apply (Move W) Strategist sample_after_move = inl IllegalAction.
Proof. reflexivity. Qed.

Lemma best_most_visited (l : list Node) :
  l ≠ [] →
  ∃ n, best (λ b a, visitCount a <? visitCount b) l = Some n
       ∧ n ∈ l ∧ ∀ m, m ∈ l → visitCount m ≤ visitCount n.
Proof.
  induction l as [|a l IH]; [done|]. intros _. cbn [best].
  destruct l as [|a' l'].
  - exists a. cbn. split_and!; [done|left|].
    intros m ->%list_elem_of_singleton. lia.
  - destruct IH as (n & -> & Hin & Hmax); [done|].
    destruct (Z.ltb_spec (visitCount a) (visitCount n)).
    + exists n. split_and!; [done|by right|].
      intros m [->|Hm]%elem_of_cons; [lia|by apply Hmax].
    + exists a. split_and!; [done|left|].
      intros m [->|Hm]%elem_of_cons; [lia|]. apply Hmax in Hm. lia.
Qed.

Lemma best_visits_only (l l' : list Node) :
  (λ n, (action n, visitCount n)) <$> l' = (λ n, (action n, visitCount n)) <$> l →
  action <$> best (λ b a, visitCount a <? visitCount b) l'
  = action <$> best (λ b a, visitCount a <? visitCount b) l.
Proof.
  revert l'. induction l as [|a l IH]; intros [|a' l'] H; try done.
  cbn in H. injection H as Ha Hv Hl. specialize (IH _ Hl). cbn [best].
  assert (Hk : visitCount <$> best (λ b a, visitCount a <? visitCount b) l'
               = visitCount <$> best (λ b a, visitCount a <? visitCount b) l).
  { clear -Hl. revert l' Hl. induction l as [|a l IH]; intros [|a' l'] H; try done.
    cbn in H. injection H as _ Hv Hl. specialize (IH _ Hl). cbn [best].
    destruct (best _ l') as [b'|], (best _ l) as [b|]; try done; cbn in *.
    - injection IH as IH. rewrite IH, Hv. by destruct (_ <? _); cbn; f_equal.
    - by f_equal. }
  destruct (best _ l') as [b'|], (best _ l) as [b|]; try done; cbn in *.
  - injection IH as IH. injection Hk as Hk. rewrite Hk, Hv.
    destruct (_ <? _); cbn; by f_equal.
  - by f_equal.
Qed.

(** C7. When the simulations are used up, the action returned is the
    action of a child of the root that no other child exceeds in
    [visitCount]. The rewards play no part in it: two roots whose
    children carry the same actions and the same visit counts give the
    same answer, whatever their accumulated rewards. *)
Theorem chosen_action_most_visited (root : Node) :
  kids root ≠ [] →
  (∃ n, n ∈ kids root
        ∧ chosenAction root = action n
        ∧ ∀ m, m ∈ kids root → visitCount m ≤ visitCount n)
  ∧ (∀ root',
       (λ n, (action n, visitCount n)) <$> kids root'
       = (λ n, (action n, visitCount n)) <$> kids root →
       chosenAction root' = chosenAction root).
Proof.
  intros Hk. split.
  - destruct (best_most_visited _ Hk) as (n & Hn & Hin & Hmax).
    exists n. unfold chosenAction. rewrite Hn. done.
  - intros root' H. apply best_visits_only in H. unfold chosenAction.
    destruct (best _ (kids root')), (best _ (kids root)); cbn in *; congruence.
Qed.

Lemma chosen_action_most_visited_witness :
  chosenAction sample_root = Some (Move E)
  ∧ greediestAction sample_root = Some ControlNode.
Proof.
  split; [|reflexivity].
  destruct (chosen_action_most_visited sample_root) as [(n & Hin & -> & Hmax) _];
    [discriminate|].
  apply elem_of_cons in Hin as [->|Hin]; [reflexivity|].
  apply list_elem_of_singleton in Hin as ->.
  specialize (Hmax (leaf (Move E) 10 2)). cbn in Hmax.
  exfalso. assert (10 ≤ 3) by (apply Hmax; left). lia.
Defined.

End CoreRules.

(** ** The scene: updates that find nothing, and the end of a move *)

Example built_sample_children : children built_sample = [0; 1; 2; 3; 4]%nat.
Proof. vm_compute. reflexivity. Qed.

Example built_sample_kinds :
  kind <$> entities built_sample
  = [KWall; KFuelStation; KLightNode; KAgent; KAgent].
Proof. vm_compute. reflexivity. Qed.

Example built_sample_registries :
  environment built_sample !! "2,0" = Some 0%nat
  ∧ fuelStations built_sample !! "1,0" = Some 1%nat
  ∧ lightNodes built_sample !! "0,1" = Some 2%nat
  ∧ sceneAgents built_sample !! "strategist" = Some 3%nat
  ∧ sceneAgents built_sample !! "instinct" = Some 4%nat.
Proof. vm_compute. done. Qed.

Lemma progress_done (a : MoveAnimation) (now : Z) :
  0 < duration a → startTime a + duration a ≤ now →
  (progress_at a now == 1)%Q.
Proof.
  intros Hd Hnow. unfold progress_at. apply Q.min_r.
  apply Qle_shift_div_l.
  - change 0%Q with (inject_Z 0). rewrite <- Zlt_Qlt. done.
  - rewrite Qmult_1_l. rewrite <- Zle_Qle. lia.
Qed.

Lemma progress_running (a : MoveAnimation) (now : Z) :
  0 < duration a → now < startTime a + duration a →
  (progress_at a now < 1)%Q.
Proof.
  intros Hd Hnow. unfold progress_at.
  apply Q.min_lt_iff. left.
  apply Qlt_shift_div_r.
  - change 0%Q with (inject_Z 0). rewrite <- Zlt_Qlt. done.
  - rewrite Qmult_1_l. rewrite <- Zlt_Qlt. lia.
Qed.




(** ** Registry keys *)

Lemma pretty_N_char_no_comma x : pretty_N_char x ≠ ","%char.
Proof. unfold pretty_N_char. by repeat case_match. Qed.

Lemma pretty_N_go_no_comma x s :
  has_comma s = false → has_comma (pretty_N_go x s) = false.
Proof.
  revert s. induction (N.lt_wf_0 x) as [x _ IH]; intros s Hs.
  destruct (decide (x = 0)%N) as [->|Hx].
  - by rewrite pretty_N_go_0.
  - rewrite pretty_N_go_step by lia. apply IH.
    + apply N.div_lt; lia.
    + cbn. rewrite Hs, orb_false_r. apply bool_decide_eq_false.
      apply pretty_N_char_no_comma.
Qed.

Lemma pretty_N_no_comma (x : N) : has_comma (pretty x) = false.
Proof.
  unfold pretty, pretty_N. case_decide; [done|].
  by apply pretty_N_go_no_comma.
Qed.

Lemma pretty_Z_no_comma (x : Z) : has_comma (pretty x) = false.
Proof.
  unfold pretty, pretty_Z. destruct x as [|p|p].
  - done.
  - apply pretty_N_no_comma.
  - cbn. apply pretty_N_no_comma.
Qed.

Lemma comma_splits (s1 s2 t1 t2 : string) :
  has_comma s1 = false → has_comma s2 = false →
  s1 +:+ "," +:+ t1 = s2 +:+ "," +:+ t2 → s1 = s2 ∧ t1 = t2.
Proof.
  revert s2. induction s1 as [|c s1 IH]; intros [|c2 s2] H1 H2 H; cbn in *.
  - by simplify_eq.
  - injection H as <- _. by rewrite bool_decide_eq_true_2 in H2.
  - injection H as -> _. by rewrite bool_decide_eq_true_2 in H1.
  - injection H as -> H. apply orb_false_elim in H1 as [_ H1].
    apply orb_false_elim in H2 as [_ H2].
    destruct (IH _ H1 H2 H) as [-> ->]. done.
Qed.

(** Two cells have the same key only if they are the same cell. *)
Global Instance key_inj : Inj (=) (=) key.
Proof.
  intros [x1 y1] [x2 y2] H. unfold key in H. cbn in H.
  apply comma_splits in H as [Hx Hy]; try apply pretty_Z_no_comma.
  apply (inj pretty) in Hx, Hy. by subst.
Qed.

(** ** Adding entities to the scene *)

Lemma registry_add_entity r r' k k' o s :
  registry r (add_entity r' k' o s) !! k
  = if decide (r = r' ∧ k = k') then Some (length (store s))
    else registry r s !! k.
Proof.
  case_decide as H.
  - destruct H as [-> ->]. destruct r'; cbn; apply lookup_insert_eq.
  - destruct r, r'; cbn; try done;
      (destruct (decide (k = k')) as [->|];
       [by destruct H | by rewrite lookup_insert_ne]).
Qed.

Lemma spawn_all_app bs1 bs2 s :
  spawn_all (bs1 ++ bs2) s = spawn_all bs2 (spawn_all bs1 s).
Proof. apply foldl_app. Qed.

Lemma store_spawn_all bs s : store (spawn_all bs s) = store s ++ bs.*2.
Proof.
  revert s. induction bs as [|b bs IH]; intros s; cbn.
  - by rewrite app_nil_r.
  - unfold spawn_all in IH. rewrite IH. cbn. by rewrite <- app_assoc.
Qed.

Lemma children_spawn_all bs s :
  children (spawn_all bs s)
  = children s ++ seq (length (store s)) (length bs).
Proof.
  revert s. induction bs as [|b bs IH]; intros s; cbn.
  - by rewrite app_nil_r.
  - unfold spawn_all in IH. rewrite IH. cbn.
    rewrite <- app_assoc, length_app. cbn.
    by rewrite Nat.add_1_r.
Qed.

Lemma cellSize_spawn_all bs s : cellSize (spawn_all bs s) = cellSize s.
Proof.
  revert s. induction bs as [|b bs IH]; intros s; [done|].
  cbn. unfold spawn_all in IH. by rewrite IH.
Qed.

Lemma gridSize_spawn_all bs s : gridSize (spawn_all bs s) = gridSize s.
Proof.
  revert s. induction bs as [|b bs IH]; intros s; [done|].
  cbn. unfold spawn_all in IH. by rewrite IH.
Qed.

Lemma registry_spawn_all_other r k bs s :
  (r, k) ∉ bs.*1 → registry r (spawn_all bs s) !! k = registry r s !! k.
Proof.
  revert s. induction bs as [|[[r' k'] o] bs IH]; intros s H; [done|].
  cbn in *. apply not_elem_of_cons in H as [Hne H].
  unfold spawn_all in IH. rewrite IH by done. unfold spawn. cbn.
  rewrite registry_add_entity. case_decide as Heq; [|done].
  destruct Heq as [-> ->]. done.
Qed.

Lemma registry_spawn_all_at r k o j bs s :
  NoDup bs.*1 → bs !! j = Some (r, k, o) →
  registry r (spawn_all bs s) !! k = Some (length (store s) + j)%nat.
Proof.
  revert s j. induction bs as [|[[r' k'] o'] bs IH]; intros s j Hnd Hj; [done|].
  cbn in Hnd. apply NoDup_cons in Hnd as [Hnew Hnd].
  destruct j as [|j]; cbn in Hj.
  - injection Hj as -> -> ->. cbn.
    fold (spawn_all bs (spawn s (r, k, o))).
    rewrite registry_spawn_all_other by done.
    unfold spawn. cbn. rewrite registry_add_entity.
    rewrite decide_True by done. f_equal. lia.
  - cbn. fold (spawn_all bs (spawn s (r', k', o'))).
    rewrite (IH _ j) by done. unfold spawn. cbn.
    rewrite length_app. cbn. f_equal. lia.
Qed.

Lemma spawn_all_registered bs s i :
  NoDup bs.*1 →
  i ∈ seq (length (store s)) (length bs) →
  ∃ r k, registry r (spawn_all bs s) !! k = Some i.
Proof.
  intros Hnd Hi. apply elem_of_seq in Hi.
  destruct (lookup_lt_is_Some_2 bs (i - length (store s))) as [[[r k] o] Hb];
    [lia|].
  exists r, k. rewrite (registry_spawn_all_at r k o _ bs s Hnd Hb). f_equal. lia.
Qed.

(** ** The grid loop *)

Lemma elem_of_cells gameState p t :
  (p, t) ∈ cells gameState
  ↔ (0 ≤ pos_x p < grid_size gameState ∧ 0 ≤ pos_y p < grid_size gameState)
    ∧ t = cell_type gameState (pos_x p) (pos_y p).
Proof.
  unfold cells. rewrite list_elem_of_bind. split.
  - intros (y & Hx & Hy). apply list_elem_of_fmap in Hx as (x & [= -> ->] & Hx).
    apply elem_of_seqZ in Hx, Hy. cbn. split; [lia|done].
  - intros [[Hx Hy] ->]. exists (pos_y p). split.
    + apply list_elem_of_fmap. exists (pos_x p). split; [by destruct p|].
      apply elem_of_seqZ. lia.
    + apply elem_of_seqZ. lia.
Qed.

Lemma NoDup_cells gameState : NoDup (cells gameState).*1.
Proof.
  unfold cells.
  assert (G : ∀ ys, NoDup ys →
    NoDup (ys ≫= λ y, (λ x, (at_cell x y, cell_type gameState x y))
                        <$> seqZ 0 (grid_size gameState)).*1).
  { induction ys as [|y ys IH]; intros Hnd; [constructor|].
    apply NoDup_cons in Hnd as [Hy Hnd]. cbn. rewrite fmap_app.
    apply NoDup_app. split_and!.
    - rewrite <- list_fmap_compose. apply NoDup_fmap_2; [|apply NoDup_seqZ].
      intros x1 x2 [= ->]. done.
    - intros p Hp Hp'. apply list_elem_of_fmap in Hp as ([p1 t1] & -> & Hp).
      apply list_elem_of_fmap in Hp as (x & [= -> ->] & _).
      apply list_elem_of_fmap in Hp' as ([p2 t2] & Heq & Hp').
      apply list_elem_of_bind in Hp' as (y' & Hp' & Hy').
      apply list_elem_of_fmap in Hp' as (x' & [= -> ->] & _).
      cbn in Heq. injection Heq as _ ->. done.
    - by apply IH. }
  apply G, NoDup_seqZ.
Qed.

Lemma foldl_ext_in {A B} (f g : A → B → A) (l : list B) (a : A) :
  (∀ a b, b ∈ l → f a b = g a b) → foldl f a l = foldl g a l.
Proof.
  revert a. induction l as [|b l IH]; intros a H; [done|].
  cbn. rewrite H by left. apply IH. intros ?? ?. apply H. by right.
Qed.

Lemma for_each_cell_cells body gameState s :
  rows_present gameState →
  for_each_cell body gameState s
  = Some (foldl (λ s c, body c.1 c.2 s) s (cells gameState)).
Proof.
  intros Hrows. unfold for_each_cell, cells.
  assert (G : ∀ ys s0,
    (∀ y, y ∈ ys → 0 ≤ y < grid_size gameState) →
    for_each
      (λ y s,
         row ← grid gameState !! Z.to_nat y;
         Some (foldl (λ s x, body {| pos_x := x; pos_y := y |}
                               (row !! Z.to_nat x) s)
                 s (seqZ 0 (grid_size gameState)))) ys s0
    = Some (foldl (λ s c, body c.1 c.2 s) s0
              (ys ≫= λ y, (λ x, (at_cell x y, cell_type gameState x y))
                            <$> seqZ 0 (grid_size gameState)))).
  { induction ys as [|y ys IH]; intros s0 Hys; [done|].
    cbn [for_each]. destruct (Hrows y) as [row Hrow]; [apply Hys; left|].
    rewrite Hrow. cbn [mbind option_bind]. rewrite IH.
    2:{ intros y' Hy'. apply Hys. by right. }
    cbn [mbind list_bind]. rewrite foldl_app. do 2 f_equal.
    rewrite foldl_fmap. apply foldl_ext_in.
    intros s1 x Hx. apply elem_of_seqZ in Hx. cbn [fst snd at_cell].
    unfold cell_type. rewrite Hrow. done. }
  apply G. intros y Hy. apply elem_of_seqZ in Hy. lia.
Qed.

Lemma foldl_spawns {A} (f : GameScene → A → GameScene)
    (g : Z → A → list Spawn) :
  (∀ a s, f s a = spawn_all (g (cellSize s) a) s) →
  ∀ l s, foldl f s l = spawn_all (l ≫= g (cellSize s)) s.
Proof.
  intros Hf. induction l as [|a l IH]; intros s; [done|].
  cbn [foldl mbind list_bind]. rewrite spawn_all_app, IH, Hf.
  by rewrite cellSize_spawn_all.
Qed.

(** ** What [buildScene] of scene.js adds *)

Lemma bind_singleton_fmap {A B} (f : A → B) (l : list A) :
  l ≫= (λ a, [f a]) = f <$> l.
Proof. induction l as [|a l IH]; [done|]. cbn. by rewrite IH. Qed.

Lemma place_agents_spawns gameState ags s :
  agents gameState = Some ags →
  place_agents gameState s = Some (spawn_all (agent_spawns (cellSize s) ags) s).
Proof. intros H. unfold place_agents. rewrite H. done. Qed.

Lemma buildScene_spawns gameState ags s :
  rows_present gameState → agents gameState = Some ags →
  buildScene gameState s
  = Some (spawn_all (plan_js (cellSize s) gameState ags)
            (cleared_js gameState s)).
Proof.
  intros Hrows Hags. unfold buildScene. fold (cleared_js gameState s).
  rewrite for_each_cell_cells by done. cbn [mbind option_bind].
  assert (Hcs : cellSize (cleared_js gameState s) = cellSize s).
  { unfold cleared_js. by case_bool_decide. }
  rewrite (foldl_spawns _
    (λ cs c, if bool_decide (c.2 = Some "wall")
             then [wall_spawn scene_js cs c.1] else [])).
  2:{ intros [p t] s0. cbn. by case_bool_decide. }
  rewrite (foldl_spawns _ (λ cs fs, [station_spawn scene_js cs (fs_position fs)]))
    by done.
  rewrite (foldl_spawns _
    (λ cs n, [node_spawn scene_js cs (ln_position n) (controlled_by n)])).
  2:{ intros n s0. unfold createLightNode, spawn_all, spawn, node_spawn.
      cbn. by destruct (controlled_by n). }
  rewrite (place_agents_spawns _ ags) by done.
  rewrite !cellSize_spawn_all, Hcs.
  rewrite <- !spawn_all_app. unfold plan_js. rewrite !bind_singleton_fmap.
  do 3 f_equal. unfold wall_cells.
  induction (cells gameState) as [|[p t] l IH]; [done|].
  cbn [mbind list_bind]. rewrite IH, filter_cons. cbn [snd fst].
  case_bool_decide; by rewrite decide_bool_decide; case_bool_decide.
Qed.

(** ** Clearing the scene *)

Lemma elem_of_foldl_remove ids ch i :
  i ∈ foldl (λ ch id, scene_remove id ch) ch ids ↔ i ∈ ch ∧ i ∉ ids.
Proof.
  revert ch. induction ids as [|id ids IH]; intros ch; cbn.
  - split; [|by intros []]. intros H. split; [done|]. by intros ?%elem_of_nil.
  - rewrite IH. unfold scene_remove. rewrite list_elem_of_filter.
    rewrite not_elem_of_cons. tauto.
Qed.

Lemma elem_of_remove_registered reg ch i :
  i ∈ remove_registered reg ch ↔ i ∈ ch ∧ ∀ k, reg !! k ≠ Some i.
Proof.
  unfold remove_registered. rewrite elem_of_foldl_remove.
  apply and_iff_compat_l. split.
  - intros Hno k Hk. apply Hno. apply list_elem_of_fmap.
    exists (k, i). split; [done|]. by apply elem_of_map_to_list.
  - intros Hno Hin. apply list_elem_of_fmap in Hin as ([k j] & -> & Hin).
    apply elem_of_map_to_list in Hin. by apply (Hno k).
Qed.

(** [buildScene] takes out of the scene exactly the entities that a
    registry still records. *)
Lemma elem_of_children_clear_scene s i :
  i ∈ children (clear_scene s)
  ↔ i ∈ children s ∧ ∀ r k, registry r s !! k ≠ Some i.
Proof.
  unfold clear_scene. cbn [children].
  rewrite !elem_of_remove_registered. split.
  - intros ((((Hi & Ha) & Hf) & Hl) & He). split; [done|].
    intros [] k; cbn; auto.
  - intros [Hi Hno]. split_and!; [done|..]; intros k.
    + apply (Hno RAgents). + apply (Hno RFuelStations).
    + apply (Hno RLightNodes). + apply (Hno REnvironment).
Qed.

Lemma children_clear_registered s :
  registered s → children (clear_scene s) = [].
Proof.
  intros Hreg. apply elem_of_nil_inv. intros i Hi.
  apply elem_of_children_clear_scene in Hi as [Hi Hno].
  destruct (Hreg i Hi) as (_ & r & k & Hk). by apply (Hno r k).
Qed.

Lemma registry_clear_scene r s : registry r (clear_scene s) = ∅.
Proof. by destruct r. Qed.

Lemma children_cleared_js gameState s :
  children (cleared_js gameState s) = children (clear_scene s).
Proof. unfold cleared_js. by case_bool_decide. Qed.

Lemma store_cleared_js gameState s :
  store (cleared_js gameState s) = store s.
Proof. unfold cleared_js. by case_bool_decide. Qed.

(** ** Snapshots and scenes that occur *)

Lemma NoDup_filter_fst {A B} (P : A * B → Prop) `{!∀ c, Decision (P c)}
    (l : list (A * B)) :
  NoDup l.*1 → NoDup (filter P l).*1.
Proof.
  induction l as [|c l IH]; [done|]. rewrite fmap_cons.
  intros [Hc Hl]%NoDup_cons.
  rewrite filter_cons. case_decide; [|by apply IH].
  rewrite fmap_cons. apply NoDup_cons. split; [|by apply IH].
  intros Hin. apply Hc. apply list_elem_of_fmap in Hin as (c' & -> & Hin).
  apply list_elem_of_filter in Hin as [_ Hin].
  apply list_elem_of_fmap. by exists c'.
Qed.

Lemma NoDup_wall_cells gameState : NoDup (wall_cells gameState).
Proof. apply NoDup_filter_fst, NoDup_cells. Qed.

Lemma elem_of_wall_cells gameState p :
  p ∈ wall_cells gameState
  ↔ (0 ≤ pos_x p < grid_size gameState ∧ 0 ≤ pos_y p < grid_size gameState)
    ∧ cell_type gameState (pos_x p) (pos_y p) = Some "wall".
Proof.
  unfold wall_cells. rewrite list_elem_of_fmap. split.
  - intros ([p' t] & -> & Hin). apply list_elem_of_filter in Hin as [Ht Hin].
    apply elem_of_cells in Hin as [? ->]. done.
  - intros [Hr Ht]. exists (p, Some "wall"). split; [done|].
    apply list_elem_of_filter. split; [done|]. apply elem_of_cells. done.
Qed.

Lemma NoDup_plan_js cs gameState ags :
  NoDup (fs_position <$> fuel_stations gameState) →
  NoDup (ln_position <$> light_nodes gameState) →
  NoDup (plan_js cs gameState ags).*1.
Proof.
  intros Hfs Hln. unfold plan_js. rewrite !fmap_app, <- !list_fmap_compose.
  assert (Hinj : ∀ r : Registry, Inj (=) (=) (λ p, (r, key p))).
  { intros r p q [= H]. by apply (inj key). }
  assert (Hagents : NoDup (agent_spawns cs ags).*1).
  { cbn. apply NoDup_cons. split; [|apply NoDup_singleton].
    intros H%list_elem_of_singleton. discriminate. }
  apply NoDup_app; split_and!.
  { change (NoDup ((λ p, (REnvironment, key p)) <$> wall_cells gameState)).
    apply NoDup_fmap_2; [..|apply NoDup_wall_cells]; apply Hinj. }
  { intros rk H1 H2. apply list_elem_of_fmap in H1 as (p & -> & _).
    apply elem_of_app in H2 as [H2|H2];
      [by apply list_elem_of_fmap in H2 as (? & [=] & _)|].
    apply elem_of_app in H2 as [H2|H2];
      [by apply list_elem_of_fmap in H2 as (? & [=] & _)|].
    cbn in H2. repeat (apply elem_of_cons in H2 as [[=]|H2]).
    by apply elem_of_nil in H2. }
  apply NoDup_app; split_and!.
  { change (NoDup ((λ p, (RFuelStations, key p)) ∘ fs_position
                     <$> fuel_stations gameState)).
    rewrite list_fmap_compose. apply NoDup_fmap_2; [..|done]; apply Hinj. }
  { intros rk H1 H2. apply list_elem_of_fmap in H1 as (p & -> & _).
    apply elem_of_app in H2 as [H2|H2];
      [by apply list_elem_of_fmap in H2 as (? & [=] & _)|].
    cbn in H2. repeat (apply elem_of_cons in H2 as [[=]|H2]).
    by apply elem_of_nil in H2. }
  apply NoDup_app; split_and!.
  { change (NoDup ((λ p, (RLightNodes, key p)) ∘ ln_position
                     <$> light_nodes gameState)).
    rewrite list_fmap_compose. apply NoDup_fmap_2; [..|done]; apply Hinj. }
  { intros rk H1 H2. apply list_elem_of_fmap in H1 as (p & -> & _).
    cbn in H2. repeat (apply elem_of_cons in H2 as [[=]|H2]).
    by apply elem_of_nil in H2. }
  exact Hagents.
Qed.

Lemma registered_buildScene gameState s s' :
  well_formed gameState → buildScene gameState s = Some s' →
  registered s → registered s'.
Proof.
  intros (Hrows & [ags Hags] & Hfs & Hln) Hb Hreg.
  rewrite (buildScene_spawns _ ags) in Hb by done. injection Hb as <-.
  intros i Hi. rewrite children_spawn_all, children_cleared_js in Hi.
  rewrite children_clear_registered, app_nil_l in Hi by done. split.
  - rewrite store_spawn_all, length_app, length_fmap.
    apply elem_of_seq in Hi. lia.
  - eapply spawn_all_registered; [|done]. by apply NoDup_plan_js.
Qed.

Lemma registered_set_store f id s :
  registered s → registered (set_store (alter f id (store s)) s).
Proof.
  intros Hreg i Hi. destruct (Hreg i Hi) as [Hlt (r & k & Hk)].
  split; [cbn; by rewrite length_alter|]. exists r, k. by destruct r.
Qed.

Lemma scene_reachable_registered s : scene_reachable s → registered s.
Proof.
  induction 1 as [size|gameState s s' _ IH Hwf Hb
                  |position owner s s' _ IH Hu|position isActive s s' _ IH Hu
                  |agentType target started now s s' w _ IH Hm|a now s _ IH].
  - intros i Hi. by apply elem_of_nil in Hi.
  - by eapply registered_buildScene.
  - unfold updateLightNode in Hu. destruct position as [p|]; [|done].
    cbn in Hu. destruct (lightNodes s !! key p); simplify_eq; [|done].
    by apply registered_set_store.
  - unfold updateFuelStation in Hu. destruct position as [p|]; [|done].
    cbn in Hu. destruct (fuelStations s !! key p); simplify_eq; [|done].
    by apply registered_set_store.
  - unfold moveAgent in Hm. destruct (sceneAgents s !! agentType).
    + destruct target as [p|]; [|done]. cbn in Hm.
      destruct (store s !! n); [|done]. cbn in Hm. simplify_eq.
      by apply registered_set_store.
    + by simplify_eq.
  - by apply registered_set_store.
Qed.

(** ** C6: what a build leaves in the scene *)

Lemma omap_lookup_seq {A} (l1 l2 : list A) :
  omap (λ i, (l1 ++ l2) !! i) (seq (length l1) (length l2)) = l2.
Proof.
  revert l1. induction l2 as [|a l2 IH]; intros l1; [done|].
  cbn [length seq omap list_omap].
  rewrite lookup_app_r, Nat.sub_diag by lia. cbn.
  f_equal. specialize (IH (l1 ++ [a])).
  rewrite length_app, Nat.add_1_r, <- app_assoc in IH. exact IH.
Qed.

Lemma entities_spawn_all bs s :
  children s = [] → entities (spawn_all bs s) = bs.*2.
Proof.
  intros Hc. unfold entities.
  rewrite children_spawn_all, store_spawn_all, Hc, app_nil_l.
  rewrite <- (length_fmap snd bs). apply omap_lookup_seq.
Qed.

Lemma shown_plan_js cs gameState ags :
  shown <$> (plan_js cs gameState ags).*2
  = ((λ p, placed cs KWall p JNull) <$> wall_cells gameState)
    ++ ((λ fs, placed cs KFuelStation (fs_position fs) JNull)
          <$> fuel_stations gameState)
    ++ ((λ n, placed cs KLightNode (ln_position n) (controlled_by n))
          <$> light_nodes gameState)
    ++ [placed cs KAgent (position (strategist ags)) JNull;
        placed cs KAgent (position (instinct ags)) JNull].
Proof.
  unfold plan_js. rewrite !fmap_app, <- !list_fmap_compose.
  f_equal. f_equal. apply (f_equal2 app); [|reflexivity].
  apply list_fmap_ext. intros i n _. unfold placed, shown. cbn.
  by destruct (controlled_by n).
Qed.


Lemma sample_snapshot_well_formed : well_formed sample_snapshot.
Proof.
  split_and!.
  - intros y Hy. cbn in Hy.
    assert (y = 0 ∨ y = 1 ∨ y = 2) as [-> | [-> | ->]] by lia; by eexists.
  - by eexists.
  - apply NoDup_singleton.
  - apply NoDup_singleton.
Qed.

Lemma built_sample_reachable : scene_reachable built_sample.
Proof.
  eapply reach_build;
    [apply (reach_initial 16) | apply sample_snapshot_well_formed | reflexivity].
Qed.


(** With two stations listed on one cell, the first of them (number 1)
    is still in the scene after the next build. *)
Remark twin_station_outlives_build :
  ∃ s1 s2, buildScene snapshot_with_twins (scene_initial 16) = Some s1
    ∧ buildScene sample_snapshot s1 = Some s2
    ∧ children s1 = [0; 1; 2; 3; 4]%nat
    ∧ children s2 = [1; 5; 6; 7; 8; 9]%nat.
Proof. eexists _, _. split_and!; vm_compute; reflexivity. Qed.

(** ** What [buildScene] of part_001 adds *)

Lemma updateLightNode_at lk p owner s :
  updateLightNode lk (Some p) owner s = Some (relight_at lk p owner s).
Proof.
  unfold updateLightNode, relight_at. cbn.
  by destruct (lightNodes s !! key p).
Qed.

Lemma for_each_updateLightNode nodes s :
  for_each (λ node s, updateLightNode part_001 (Some (ln_position node))
                        (controlled_by node) s) nodes s
  = Some (relit nodes s).
Proof.
  revert s. induction nodes as [|n nodes IH]; intros s; [done|].
  cbn [for_each]. rewrite updateLightNode_at. cbn [mbind option_bind].
  apply IH.
Qed.

Lemma buildScene_001_spawns gameState ags s :
  rows_present gameState → agents gameState = Some ags →
  buildScene_001 gameState s
  = Some (relit (light_nodes gameState)
            (spawn_all (plan_001 (cellSize s) gameState ags) (clear_scene s))).
Proof.
  intros Hrows Hags. unfold buildScene_001.
  rewrite for_each_cell_cells by done. cbn [mbind option_bind].
  rewrite (foldl_spawns _ cell_spawns_001).
  2:{ intros [p t] s0. unfold build_cell_001, cell_spawns_001. cbn [fst snd].
      repeat case_bool_decide; reflexivity. }
  rewrite (place_agents_spawns _ ags) by done. cbn [mbind option_bind].
  rewrite for_each_updateLightNode, cellSize_spawn_all, <- spawn_all_app.
  done.
Qed.

Lemma registry_spawn_all_inv r k i bs s :
  registry r (spawn_all bs s) !! k = Some i →
  registry r s !! k = Some i
  ∨ ∃ j o, bs !! j = Some (r, k, o) ∧ i = (length (store s) + j)%nat.
Proof.
  revert s. induction bs as [|[[r' k'] o'] bs IH]; intros s H; [by left|].
  cbn in H. fold (spawn_all bs (spawn s (r', k', o'))) in H.
  apply IH in H as [H|(j & o & Hj & ->)].
  - unfold spawn in H. cbn in H. rewrite registry_add_entity in H.
    case_decide as Heq; [|by left]. destruct Heq as [-> ->].
    injection H as <-. right. exists 0%nat, o'. split; [done|lia].
  - right. exists (S j), o. split; [done|].
    unfold spawn. cbn. rewrite length_app. cbn. lia.
Qed.

Lemma lightNodes_relit nodes s : lightNodes (relit nodes s) = lightNodes s.
Proof.
  revert s. induction nodes as [|n nodes IH]; intros s; [done|].
  unfold relit in *. cbn [foldl]. rewrite IH. unfold relight_at.
  by destruct (lightNodes s !! _).
Qed.

Lemma children_relit nodes s : children (relit nodes s) = children s.
Proof.
  revert s. induction nodes as [|n nodes IH]; intros s; [done|].
  unfold relit in *. cbn [foldl]. rewrite IH. unfold relight_at.
  by destruct (lightNodes s !! _).
Qed.

(** The object with number [i] after the light nodes were updated: each
    update whose key the registry sends to [i] has been applied to it. *)
Lemma store_relit nodes s i :
  store (relit nodes s) !! i
  = (λ o, foldl (λ o n,
                   if decide (lightNodes s !! key (ln_position n) = Some i)
                   then relight part_001 (controlled_by n) o else o)
            o nodes) <$> store s !! i.
Proof.
  revert s. induction nodes as [|n nodes IH]; intros s.
  - cbn. by destruct (store s !! i).
  - unfold relit in *. cbn [foldl]. rewrite IH.
    assert (Hl : lightNodes (relight_at part_001 (ln_position n)
                               (controlled_by n) s) = lightNodes s).
    { unfold relight_at. by destruct (lightNodes s !! _). }
    rewrite Hl. unfold relight_at.
    destruct (lightNodes s !! key (ln_position n)) as [id|] eqn:Hid.
    + cbn [store set_store]. rewrite list_lookup_alter.
      destruct (decide (id = i)) as [->|Hne].
      * destruct (store s !! i); [|done]. cbn.
        by rewrite decide_True by done.
      * destruct (store s !! i); [|done]. cbn.
        by rewrite decide_False by congruence.
    + destruct (store s !! i); [|done]. cbn.
      by rewrite decide_False by done.
Qed.

Lemma omap_seq_fmap {A B} (f : nat → option B) (g : A → B) (l : list A)
    (base : nat) :
  (∀ j a, l !! j = Some a → f (base + j)%nat = Some (g a)) →
  omap f (seq base (length l)) = g <$> l.
Proof.
  revert base. induction l as [|a l IH]; intros base H; [done|].
  cbn [length seq omap list_omap fmap list_fmap].
  rewrite <- (Nat.add_0_r base) at 1. rewrite (H 0%nat a) by done.
  f_equal. apply IH. intros j b Hj.
  replace (S base + j)%nat with (base + S j)%nat by lia. by apply H.
Qed.

Lemma entities_relit_spawn_all nodes bs s :
  children s = [] → lightNodes s = ∅ → NoDup bs.*1 →
  entities (relit nodes (spawn_all bs s)) = relit_spawn nodes <$> bs.
Proof.
  intros Hc Hl Hnd. unfold entities.
  rewrite children_relit, children_spawn_all, Hc, app_nil_l.
  apply omap_seq_fmap. intros j [[r k] o] Hj.
  assert (Hlt : (j < length bs)%nat) by (by eapply lookup_lt_Some).
  assert (Hits : ∀ n,
    lightNodes (spawn_all bs s) !! key (ln_position n)
      = Some (length (store s) + j)%nat
    ↔ r = RLightNodes ∧ key (ln_position n) = k).
  { intros n. split.
    - intros Hreg.
      apply (registry_spawn_all_inv RLightNodes) in Hreg
        as [Hreg|(j' & o' & Hj' & Heq)].
      + cbn in Hreg. rewrite Hl in Hreg. done.
      + assert (j' = j) as -> by lia. rewrite Hj in Hj'. by simplify_eq.
    - intros [-> <-]. by apply (registry_spawn_all_at RLightNodes _ o). }
  rewrite store_relit, store_spawn_all, lookup_app_r by lia.
  replace (length (store s) + j - length (store s))%nat with j by lia.
  rewrite list_lookup_fmap, Hj. cbn [fmap option_fmap option_map snd].
  f_equal. unfold relit_spawn. cbn [fst snd].
  destruct (decide (r = RLightNodes)) as [->|Hr].
  - apply foldl_ext_in. intros o' n _.
    destruct (decide (key (ln_position n) = k)) as [Hk|Hk].
    + rewrite decide_True; [done|]. by apply Hits.
    + rewrite decide_False; [done|]. intros H%Hits. by destruct H.
  - clear Hj. induction nodes as [|n nodes IHn]; [done|]. cbn [foldl].
    rewrite decide_False; [done|]. intros H%Hits. by destruct H.
Qed.

Lemma cell_spawns_001_key cs c b :
  b ∈ cell_spawns_001 cs c → b.1.2 = key c.1 ∧ b.1.1 ≠ RAgents.
Proof.
  unfold cell_spawns_001. intros Hb.
  repeat case_bool_decide;
    try (apply list_elem_of_singleton in Hb as ->; done).
  by apply elem_of_nil in Hb.
Qed.

Lemma NoDup_single_cell_spawns cs c : NoDup (cell_spawns_001 cs c).*1.
Proof.
  unfold cell_spawns_001.
  repeat case_bool_decide; try apply NoDup_singleton. constructor.
Qed.

Lemma NoDup_cell_spawns_001 cs (l : list (Position * option string)) :
  NoDup l.*1 → NoDup (l ≫= cell_spawns_001 cs).*1.
Proof.
  induction l as [|c l IH]; [constructor|]. rewrite fmap_cons.
  intros [Hc Hl]%NoDup_cons. cbn [mbind list_bind]. rewrite fmap_app.
  apply NoDup_app. split_and!; [apply NoDup_single_cell_spawns| |by apply IH].
  intros rk H1 H2. apply Hc.
  apply list_elem_of_fmap in H1 as (b & -> & Hb).
  apply list_elem_of_fmap in H2 as (b' & Heq & Hb').
  apply list_elem_of_bind in Hb' as (c' & Hb' & Hc').
  apply cell_spawns_001_key in Hb as [Hk _], Hb' as [Hk' _].
  assert (key c.1 = key c'.1) as Hkey by congruence.
  apply (inj key) in Hkey. rewrite Hkey. apply list_elem_of_fmap. by exists c'.
Qed.

Lemma NoDup_plan_001 cs gameState ags : NoDup (plan_001 cs gameState ags).*1.
Proof.
  unfold plan_001. rewrite fmap_app. apply NoDup_app. split_and!.
  - apply NoDup_cell_spawns_001, NoDup_cells.
  - intros rk H1 H2. apply list_elem_of_fmap in H1 as (b & -> & Hb).
    apply list_elem_of_bind in Hb as (c & Hb & _).
    apply cell_spawns_001_key in Hb as [_ Hr]. apply Hr.
    cbn in H2. repeat (apply elem_of_cons in H2 as [->|H2]); try done.
    by apply elem_of_nil in H2.
  - cbn. apply NoDup_cons. split; [|apply NoDup_singleton].
    intros H%list_elem_of_singleton. discriminate.
Qed.

Lemma owner_at_snoc nodes n p :
  owner_at (nodes ++ [n]) p
  = if decide (ln_position n = p) then controlled_by n else owner_at nodes p.
Proof. unfold owner_at. by rewrite foldl_snoc. Qed.

Lemma owner_at_listed nodes n :
  NoDup (ln_position <$> nodes) → n ∈ nodes →
  owner_at nodes (ln_position n) = controlled_by n.
Proof.
  induction nodes as [|m nodes IH] using rev_ind; intros Hnd Hn.
  - by apply elem_of_nil in Hn.
  - rewrite owner_at_snoc. rewrite fmap_app in Hnd.
    apply NoDup_app in Hnd as (Hnd & Hdis & _).
    apply elem_of_app in Hn as [Hn|Hn].
    + rewrite decide_False; [by apply IH|]. intros Heq.
      apply (Hdis (ln_position n)).
      * apply list_elem_of_fmap. by exists n.
      * rewrite <- Heq. cbn. left.
    + apply list_elem_of_singleton in Hn as ->. by rewrite decide_True.
Qed.

Lemma shown_relights p nodes (o : Object3D) :
  shown (foldl (λ o n, if decide (key (ln_position n) = key p)
                       then relight part_001 (controlled_by n) o else o)
           o nodes)
  = (kind o, at_x o, at_z o,
     or_null (foldl (λ acc n, if decide (ln_position n = p)
                              then controlled_by n else acc)
                (controlledBy o) nodes)).
Proof.
  revert o. induction nodes as [|n nodes IH]; intros o; [done|].
  cbn [foldl]. rewrite IH.
  destruct (decide (ln_position n = p)) as [->|Hne].
  - by rewrite decide_True.
  - rewrite decide_False; [done|]. by intros ?%(inj key).
Qed.

Lemma shown_relit_node cs p nodes :
  shown (relit_spawn nodes (node_spawn part_001 cs p JUndefined))
  = placed cs KLightNode p (owner_at nodes p).
Proof.
  unfold relit_spawn. cbn [fst snd node_spawn]. rewrite decide_True by done.
  by rewrite shown_relights.
Qed.

Lemma relit_spawn_other nodes (b : Spawn) :
  b.1.1 ≠ RLightNodes → relit_spawn nodes b = b.2.
Proof. intros H. unfold relit_spawn. by rewrite decide_False. Qed.

(** What each version shows, entity by entity. *)
Lemma elem_of_shown_js cs gameState ags d :
  d ∈ shown <$> (plan_js cs gameState ags).*2
  ↔ (∃ p, p ∈ wall_cells gameState ∧ d = placed cs KWall p JNull)
    ∨ (∃ fs, fs ∈ fuel_stations gameState
             ∧ d = placed cs KFuelStation (fs_position fs) JNull)
    ∨ (∃ n, n ∈ light_nodes gameState
            ∧ d = placed cs KLightNode (ln_position n) (controlled_by n))
    ∨ d = placed cs KAgent (position (strategist ags)) JNull
    ∨ d = placed cs KAgent (position (instinct ags)) JNull.
Proof.
  rewrite shown_plan_js. rewrite !elem_of_app, !list_elem_of_fmap.
  rewrite elem_of_cons, list_elem_of_singleton.
  split.
  - intros [(p & -> & Hp)|[(fs & -> & Hfs)|[(n & -> & Hn)|[->| ->]]]]; eauto 10.
  - intros [(p & Hp & ->)|[(fs & Hfs & ->)|[(n & Hn & ->)|[->| ->]]]]; eauto 10.
Qed.

Lemma elem_of_shown_001 cs gameState ags d :
  d ∈ shown <$> (relit_spawn (light_nodes gameState)
                   <$> plan_001 cs gameState ags)
  ↔ (∃ p t, (p, t) ∈ cells gameState
       ∧ ((t = Some "wall" ∧ d = placed cs KWall p JNull)
          ∨ (t = Some "door" ∧ d = placed cs KDoor p JNull)
          ∨ (t = Some "window" ∧ d = placed cs KWindow p JNull)
          ∨ (t = Some "tree" ∧ d = placed cs KTree p JNull)
          ∨ (t = Some "fuel_station" ∧ d = placed cs KFuelStation p JNull)
          ∨ (t = Some "light_node"
             ∧ d = placed cs KLightNode p
                     (owner_at (light_nodes gameState) p))))
    ∨ d = placed cs KAgent (position (strategist ags)) JNull
    ∨ d = placed cs KAgent (position (instinct ags)) JNull.
Proof.
  rewrite <- list_fmap_compose. unfold plan_001.
  rewrite fmap_app, elem_of_app.
  match goal with |- ?A ∨ ?B ↔ ?A' ∨ ?B' =>
    assert (Hcells : A ↔ A'); [|assert (Hags : B ↔ B'); [|tauto]]
  end.
  - rewrite list_elem_of_fmap. split.
    + intros (b & -> & Hb). apply list_elem_of_bind in Hb as ([p t] & Hb & Hc).
      exists p, t. split; [done|]. unfold cell_spawns_001 in Hb. cbn [fst snd] in Hb.
      repeat case_bool_decide;
        try (apply list_elem_of_singleton in Hb as ->).
      * left. done.
      * right; left. done.
      * do 2 right; left. done.
      * do 3 right; left. done.
      * do 4 right; left. done.
      * do 5 right. split; [done|]. cbn [compose]. apply shown_relit_node.
      * by apply elem_of_nil in Hb.
    + intros (p & t & Hc & Hd).
      assert (∃ b, b ∈ cell_spawns_001 cs (p, t)
                   ∧ d = shown (relit_spawn (light_nodes gameState) b))
        as (b & Hb & ->).
      { unfold cell_spawns_001. cbn [fst snd].
        destruct Hd as [[-> ->]|[[-> ->]|[[-> ->]|[[-> ->]|[[-> ->]|[-> ->]]]]]];
          repeat (case_bool_decide; [|congruence || done]);
          repeat (case_bool_decide; [discriminate|]);
          try (eexists; split; [left|]; [reflexivity..|]).
        all: try reflexivity.
        all: try (symmetry; apply shown_relit_node). }
      exists b. split; [done|]. apply list_elem_of_bind. by exists (p, t).
  - cbn. rewrite elem_of_cons, list_elem_of_singleton. done.
Qed.

Lemma registered_relit nodes s : registered s → registered (relit nodes s).
Proof.
  revert s. induction nodes as [|n nodes IH]; intros s Hreg; [done|].
  unfold relit in *. cbn [foldl]. apply IH. unfold relight_at.
  destruct (lightNodes s !! _); [by apply registered_set_store|done].
Qed.

(** The scenes that part_001 builds keep every entity registered, on
    any snapshot: each cell adds at most one entity. *)
Lemma registered_buildScene_001 gameState s s' :
  rows_present gameState → is_Some (agents gameState) →
  buildScene_001 gameState s = Some s' →
  registered s → registered s'.
Proof.
  intros Hrows [ags Hags] Hb Hreg.
  rewrite (buildScene_001_spawns _ ags) in Hb by done. injection Hb as <-.
  apply registered_relit. intros i Hi. rewrite children_spawn_all in Hi.
  rewrite children_clear_registered, app_nil_l in Hi by done. split.
  - rewrite store_spawn_all, length_app, length_fmap.
    apply elem_of_seq in Hi. lia.
  - eapply spawn_all_registered; [|done]. apply NoDup_plan_001.
Qed.

(** ** C8: the two versions compared *)

(** C8, amended. On a snapshot whose grid marks exactly the cells of
    the listed fuel stations and light nodes, and whose light nodes
    stand on different cells, [buildScene] of scene.js and [buildScene]
    of part_001 both succeed and show the same walls, the same fuel
    stations, the same light nodes with the same controllers and the
    same two agents, each at the same place. (What part_001 shows
    beyond these are the doors, windows and trees of the grid.) *)
Theorem builds_agree_on_common_kinds (gameState : Snapshot) (ags : Agents)
    (s1 s2 : GameScene) :
  registered s1 → registered s2 → cellSize s1 = cellSize s2 →
  rows_present gameState →
  agents gameState = Some ags →
  markers_match gameState →
  NoDup (ln_position <$> light_nodes gameState) →
  ∃ a b, buildScene gameState s1 = Some a
    ∧ buildScene_001 gameState s2 = Some b
    ∧ ∀ d, d.1.1.1 ∈ [KWall; KFuelStation; KLightNode; KAgent] →
           (d ∈ shown <$> entities a ↔ d ∈ shown <$> entities b).
Proof.
  intros Hreg1 Hreg2 Hcs Hrows Hags [Hfs Hln] Hnd.
  rewrite (buildScene_spawns _ ags), (buildScene_001_spawns _ ags) by done.
  do 2 eexists. split; [done|]. split; [done|]. intros d Hkind.
  rewrite entities_spawn_all.
  2:{ rewrite children_cleared_js. by apply children_clear_registered. }
  rewrite entities_relit_spawn_all;
    [|by apply children_clear_registered|done|apply NoDup_plan_001].
  rewrite elem_of_shown_js, elem_of_shown_001, <- Hcs.
  assert (Hnode : ∀ n, n ∈ light_nodes gameState →
            owner_at (light_nodes gameState) (ln_position n) = controlled_by n)
    by (intros; by apply owner_at_listed).
  assert (Hwall : ∀ p, p ∈ wall_cells gameState
                       ↔ (p, Some "wall") ∈ cells gameState).
  { intros p. rewrite elem_of_wall_cells, elem_of_cells.
    split; [intros [? ->]; by split|by intros [? <-]]. }
  split.
  - intros [(p & Hp & ->)|[(fs & Hin & ->)|[(n & Hin & ->)|Hagent]]].
    + left. exists p, (Some "wall"). split; [by apply Hwall|]. by left.
    + left. exists (fs_position fs), (Some "fuel_station"). split.
      * apply Hfs, list_elem_of_fmap. by exists fs.
      * do 4 right; left. done.
    + left. exists (ln_position n), (Some "light_node"). split.
      * apply Hln, list_elem_of_fmap. by exists n.
      * do 5 right. by rewrite Hnode.
    + by right.
  - intros [(p & t & Hc & Hd)|Hagent]; [|by do 3 right].
    destruct Hd as [[-> ->]|[[-> ->]|[[-> ->]|[[-> ->]|[[-> ->]|[-> ->]]]]]].
    + left. exists p. split; [by apply Hwall|done].
    + exfalso. cbn in Hkind.
      repeat (apply elem_of_cons in Hkind as [Hkind|Hkind]; [discriminate|]).
      by apply elem_of_nil in Hkind.
    + exfalso. cbn in Hkind.
      repeat (apply elem_of_cons in Hkind as [Hkind|Hkind]; [discriminate|]).
      by apply elem_of_nil in Hkind.
    + exfalso. cbn in Hkind.
      repeat (apply elem_of_cons in Hkind as [Hkind|Hkind]; [discriminate|]).
      by apply elem_of_nil in Hkind.
    + right; left. apply Hfs, list_elem_of_fmap in Hc as (fs & -> & Hin).
      by exists fs.
    + do 2 right; left. apply Hln, list_elem_of_fmap in Hc as (n & -> & Hin).
      exists n. split; [done|]. by rewrite Hnode.
Qed.

Lemma sample_snapshot_rows : rows_present snapshot_with_door.
Proof.
  intros y Hy. cbn in Hy.
  assert (y = 0 ∨ y = 1 ∨ y = 2) as [-> | [-> | ->]] by lia; by eexists.
Qed.

Lemma registered_initial size : registered (scene_initial size).
Proof. intros i Hi. by apply elem_of_nil in Hi. Qed.

Lemma builds_agree_on_common_kinds_witness :
  ∃ a b, buildScene snapshot_with_door (scene_initial 16) = Some a
    ∧ buildScene_001 snapshot_with_door (scene_initial 12) = Some b
    ∧ (placed 2 KLightNode (at_cell 0 1) (JStr "instinct")
         ∈ shown <$> entities a
       ↔ placed 2 KLightNode (at_cell 0 1) (JStr "instinct")
         ∈ shown <$> entities b).
Proof.
  destruct (builds_agree_on_common_kinds snapshot_with_door sample_agents
              (scene_initial 16) (scene_initial 12))
    as (a & b & Ha & Hb & Hsame).
  - apply registered_initial.
  - apply registered_initial.
  - reflexivity.
  - apply sample_snapshot_rows.
  - reflexivity.
  - split; intros p; rewrite elem_of_cells; cbn;
      rewrite list_elem_of_singleton; (split; [by intros ->|]).
    + intros [[Hx Hy] Ht]. destruct p as [x y]. cbn in *.
      assert (x = 0 ∨ x = 1 ∨ x = 2) as [-> | [-> | ->]] by lia;
        assert (y = 0 ∨ y = 1 ∨ y = 2) as [-> | [-> | ->]] by lia; done.
    + intros [[Hx Hy] Ht]. destruct p as [x y]. cbn in *.
      assert (x = 0 ∨ x = 1 ∨ x = 2) as [-> | [-> | ->]] by lia;
        assert (y = 0 ∨ y = 1 ∨ y = 2) as [-> | [-> | ->]] by lia; done.
  - apply NoDup_singleton.
  - exists a, b. split; [exact Ha|]. split; [exact Hb|].
    apply Hsame. cbn. do 2 right. left.
Defined.

Ltac not_listed H :=
  repeat (apply elem_of_cons in H as [H|H]; [discriminate|]);
  by apply elem_of_nil in H.

(** C8 as stated fails. On a grid with a door, part_001 shows the door
    and scene.js does not; on a grid that carries terrain only, scene.js
    shows the listed station and node and part_001 shows neither. *)
Lemma builds_do_not_agree :
  (∃ a b, buildScene snapshot_with_door (scene_initial 16) = Some a
     ∧ buildScene_001 snapshot_with_door (scene_initial 12) = Some b
     ∧ placed 2 KDoor (at_cell 1 1) JNull ∈ (shown <$> entities b)
     ∧ (placed 2 KDoor (at_cell 1 1) JNull ∉ (shown <$> entities a))
     ∧ ¬ same_rendering a b)
  ∧ (∃ a b, buildScene sample_snapshot (scene_initial 16) = Some a
       ∧ buildScene_001 sample_snapshot (scene_initial 12) = Some b
       ∧ placed 2 KFuelStation (at_cell 1 0) JNull ∈ (shown <$> entities a)
       ∧ (placed 2 KFuelStation (at_cell 1 0) JNull ∉ (shown <$> entities b))
       ∧ placed 2 KLightNode (at_cell 0 1) (JStr "instinct")
           ∈ (shown <$> entities a)
       ∧ (placed 2 KLightNode (at_cell 0 1) (JStr "instinct")
            ∉ (shown <$> entities b))
       ∧ ¬ same_rendering a b).
Proof.
  split.
  - eexists _, _. split; [vm_compute; reflexivity|].
    split; [vm_compute; reflexivity|].
    assert (Hin : placed 2 KDoor (at_cell 1 1) JNull
                    ∈ shown <$> entities
                        (default (scene_initial 12)
                           (buildScene_001 snapshot_with_door (scene_initial 12)))).
    { vm_compute. do 3 right. left. }
    assert (Hout : placed 2 KDoor (at_cell 1 1) JNull
                     ∉ shown <$> entities
                         (default (scene_initial 16)
                            (buildScene snapshot_with_door (scene_initial 16)))).
    { vm_compute. intros H. not_listed H. }
    split; [exact Hin|]. split; [exact Hout|].
    intros Hsame. apply Hout, Hsame, Hin.
  - eexists _, _. split; [vm_compute; reflexivity|].
    split; [vm_compute; reflexivity|].
    assert (Hin1 : placed 2 KFuelStation (at_cell 1 0) JNull
                     ∈ shown <$> entities built_sample).
    { vm_compute. right. left. }
    assert (Hin2 : placed 2 KLightNode (at_cell 0 1) (JStr "instinct")
                     ∈ shown <$> entities built_sample).
    { vm_compute. do 2 right. left. }
    assert (Hout1 : placed 2 KFuelStation (at_cell 1 0) JNull
                      ∉ shown <$> entities
                          (default (scene_initial 12)
                             (buildScene_001 sample_snapshot (scene_initial 12)))).
    { vm_compute. intros H. not_listed H. }
    assert (Hout2 : placed 2 KLightNode (at_cell 0 1) (JStr "instinct")
                      ∉ shown <$> entities
                          (default (scene_initial 12)
                             (buildScene_001 sample_snapshot (scene_initial 12)))).
    { vm_compute. intros H. not_listed H. }
    split; [exact Hin1|]. split; [exact Hout1|].
    split; [exact Hin2|]. split; [exact Hout2|].
    intros Hsame. apply Hout1, Hsame, Hin1.
Qed.

(* ===================================================================== *)
(** * Part III: further properties of the client *)
(* ===================================================================== *)

(** ** The action log over several entries *)

Lemma addLogEntry_log now message u :
  actionLog (addLogEntry now message u)
  = drop (length (actionLog u ++ [log_entry now message]) - 20)
      (actionLog u ++ [log_entry now message]).
Proof. unfold log_entry. by rewrite actionLog_addLogEntry, trim_log_drop. Qed.

(** X1. Entries added one after the other to a log that holds at most
    20 leave the last 20 of the old entries followed by the new ones,
    in that order. *)
Theorem addLogEntry_run (entries : list (string * string)) (u : UIState) :
  (length (actionLog u) ≤ 20)%nat →
  let all := actionLog u ++ ((λ e, log_entry e.1 e.2) <$> entries) in
  actionLog (foldl (λ u e, addLogEntry e.1 e.2 u) u entries)
  = drop (length all - 20) all.
Proof.
  intros Hlen all. subst all.
  assert (G : ∀ es u0 pre,
    actionLog u0 = drop (length pre - 20) pre →
    actionLog (foldl (λ u e, addLogEntry e.1 e.2 u) u0 es)
    = drop (length (pre ++ ((λ e, log_entry e.1 e.2) <$> es)) - 20)
        (pre ++ ((λ e, log_entry e.1 e.2) <$> es))).
  { induction es as [|e es IH]; intros u0 pre H0; cbn [foldl fmap list_fmap].
    - by rewrite app_nil_r.
    - rewrite (IH _ (pre ++ [log_entry e.1 e.2])).
      + by rewrite <- app_assoc.
      + rewrite addLogEntry_log, H0.
        rewrite !length_app, length_drop. cbn [length].
        destruct (decide (length pre ≤ 20)%nat).
        * replace (length pre - 20)%nat with 0%nat by lia.
          rewrite drop_0, Nat.sub_0_r. done.
        * rewrite (drop_app_le pre) by lia.
          rewrite drop_app_le by (rewrite length_drop; lia).
          rewrite drop_drop. do 2 f_equal. lia. }
  apply G. replace (length (actionLog u) - 20)%nat with 0%nat by lia. done.
Qed.

Lemma addLogEntry_run_witness :
  actionLog (foldl (λ u e, addLogEntry e.1 e.2 u) ui_initial
               [("t1", "a"); ("t2", "b")])
  = ["[t1] a"; "[t2] b"].
Proof.
  rewrite (addLogEntry_run [("t1", "a"); ("t2", "b")] ui_initial); [done|].
  cbn. lia.
Defined.

(** X2. [addLogEntry] drops nothing while the log holds fewer than 20
    entries, and exactly the oldest entry when it holds 20. *)
Theorem addLogEntry_drops_oldest now message (u : UIState) :
  ((length (actionLog u) < 20)%nat →
   actionLog (addLogEntry now message u)
   = actionLog u ++ [log_entry now message])
  ∧ (length (actionLog u) = 20%nat →
     actionLog (addLogEntry now message u)
     = drop 1 (actionLog u) ++ [log_entry now message]).
Proof.
  split; intros H; rewrite addLogEntry_log, length_app; cbn [length].
  - replace (length (actionLog u) + 1 - 20)%nat with 0%nat by lia. done.
  - replace (length (actionLog u) + 1 - 20)%nat with 1%nat by lia.
    by rewrite drop_app_le by lia.
Qed.

Lemma addLogEntry_drops_oldest_witness :
  actionLog (addLogEntry "t" "hello" ui_initial) = ["[t] hello"].
Proof.
  apply (proj1 (addLogEntry_drops_oldest "t" "hello" ui_initial)). cbn. lia.
Defined.

(** ** The statistics panel *)

(** X3. [updateAgentStats] writes the nodes, fuel and score of the
    agent it is called for into that agent's three elements and
    touches nothing else of the document; for an agent type other than
    'strategist' and 'instinct' it does nothing. *)
Theorem updateAgentStats_writes_own_panel (agentType : string)
    (data : AgentData) (u : UIState) :
  let u' := updateAgentStats agentType data u in
  (agentType ≠ "strategist" → agentType ≠ "instinct" → u' = u)
  ∧ (agentType = "strategist" ∨ agentType = "instinct" →
     textContent u' !! (agentType +:+ "-nodes")
       = Some (as_text (nodes_controlled data))
     ∧ textContent u' !! (agentType +:+ "-fuel") = Some (as_text (fuel data))
     ∧ textContent u' !! (agentType +:+ "-score")
       = Some (as_text (score data)))
  ∧ (∀ id, id ∉ [agentType +:+ "-nodes"; agentType +:+ "-fuel";
                 agentType +:+ "-score"] →
           textContent u' !! id = textContent u !! id)
  ∧ styleColor u' = styleColor u ∧ classList u' = classList u
  ∧ disabled u' = disabled u ∧ actionLog u' = actionLog u.
Proof.
  intros u'. subst u'. unfold updateAgentStats. split_and!.
  - intros H1 H2. by rewrite !bool_decide_eq_false_2.
  - intros [-> | ->]; repeat case_bool_decide; try discriminate; try done;
      simpl (_ +:+ _); split_and!; read_text; done.
  - intros id Hid.
    apply not_elem_of_cons in Hid as [H1 Hid].
    apply not_elem_of_cons in Hid as [H2 Hid].
    apply not_elem_of_cons in Hid as [H3 _].
    repeat case_bool_decide; subst; cbn in *; [| |done];
      by rewrite !lookup_insert_ne by done.
  - by repeat case_bool_decide.
  - by repeat case_bool_decide.
  - by repeat case_bool_decide.
  - by repeat case_bool_decide.
Qed.

Lemma updateAgentStats_writes_own_panel_witness :
  textContent (updateAgentStats "instinct" (sample_agent 2) ui_initial)
    !! "instinct-score" = Some "41.5"
  ∧ updateAgentStats "spectator" (sample_agent 2) ui_initial = ui_initial.
Proof.
  destruct (updateAgentStats_writes_own_panel "instinct" (sample_agent 2)
              ui_initial) as (_ & Hown & _).
  destruct (updateAgentStats_writes_own_panel "spectator" (sample_agent 2)
              ui_initial) as (Hnone & _).
  split.
  - destruct Hown as (_ & _ & Hs); [by right|exact Hs].
  - apply Hnone; discriminate.
Defined.

(** ** Handling an action *)

Lemma bind_Some_inv {A B} (m : option A) (f : A → option B) (b : B) :
  m ≫= f = Some b → ∃ a, m = Some a ∧ f a = Some b.
Proof. destruct m; cbn; [eauto|done]. Qed.

Lemma update_stats_Some st c c' :
  update_stats st c = Some c' →
  ∃ ags, agents st = Some ags
    ∧ c' = with_ui (updateAgentStats "instinct" (instinct ags))
             (with_ui (updateAgentStats "strategist" (strategist ags)) c).
Proof.
  unfold update_stats. destruct (agents st) as [ags|]; [|done].
  intros [= <-]. eauto.
Qed.

Lemma updateAgentStats_strategist data u :
  updateAgentStats "strategist" data u
  = set_text "strategist-score" (score data)
      (set_text "strategist-fuel" (fuel data)
         (set_text "strategist-nodes" (nodes_controlled data) u)).
Proof. reflexivity. Qed.

Lemma updateAgentStats_instinct data u :
  updateAgentStats "instinct" data u
  = set_text "instinct-score" (score data)
      (set_text "instinct-fuel" (fuel data)
         (set_text "instinct-nodes" (nodes_controlled data) u)).
Proof. reflexivity. Qed.

(** The steps of [handleAction], in the order of the source. *)
Lemma handleAction_Some action ai state now clock c c' :
  handleAction action ai state now clock c = Some c' →
  ∃ c1 sc ags msg,
    ui c1 = ui c ∧ ws c1 = ws c ∧ isConnected c1 = isConnected c
    ∧ for_each (λ fs sc, updateFuelStation scene_js (Some (fs_position fs))
                           (is_active fs) sc)
        (fuel_stations state) (scene c1) = Some sc
    ∧ agents state = Some ags
    ∧ formatAction action ai = Some msg
    ∧ c' = with_ui (addLogEntry now msg)
             (with_ui (updateTurn (turn state) (max_turns state))
                (with_ui (updateAgentStats "instinct" (instinct ags))
                   (with_ui (updateAgentStats "strategist" (strategist ags))
                      (with_scene sc c1))))
    ∧ gameState c1 = Some state.
Proof.
  unfold handleAction. intros H.
  apply bind_Some_inv in H as (c1 & H1 & H).
  apply bind_Some_inv in H as (sc & Hsc & H).
  apply bind_Some_inv in H as (c2 & H2 & H).
  apply bind_Some_inv in H as (msg & Hmsg & H).
  apply update_stats_Some in H2 as (ags & Hags & ->).
  injection H as <-.
  exists c1, sc, ags, msg.
  assert (Hc1 : ui c1 = ui c ∧ ws c1 = ws c ∧ isConnected c1 = isConnected c
                ∧ gameState c1 = Some state).
  { destruct (is_str (a_type action) "move").
    - apply bind_Some_inv in H1 as ([sc1 anim] & _ & [= <-]). done.
    - destruct (_ || _).
      + apply bind_Some_inv in H1 as (sc1 & _ & [= <-]). done.
      + injection H1 as <-. done. }
  destruct Hc1 as (? & ? & ? & ?). split_and!; done.
Qed.

(** X4. When [handleAction] returns, the controller holds the snapshot
    of the message, the statistics panel and the turn counter show that
    snapshot, and the last line of the log is the text that
    [formatAction] gives for the action, with the time in front. *)
Theorem handleAction_reports action ai state now clock (c c' : Client) :
  handleAction action ai state now clock c = Some c' →
  gameState c' = Some state
  ∧ (∃ msg, formatAction action ai = Some msg
            ∧ last (actionLog (ui c')) = Some (log_entry now msg))
  ∧ textContent (ui c') !! "current-turn" = Some (as_text (turn state))
  ∧ textContent (ui c') !! "max-turns" = Some (as_text (max_turns state))
  ∧ (∃ ags, agents state = Some ags
       ∧ textContent (ui c') !! "strategist-fuel"
         = Some (as_text (fuel (strategist ags)))
       ∧ textContent (ui c') !! "instinct-fuel"
         = Some (as_text (fuel (instinct ags)))
       ∧ textContent (ui c') !! "strategist-nodes"
         = Some (as_text (nodes_controlled (strategist ags)))
       ∧ textContent (ui c') !! "instinct-nodes"
         = Some (as_text (nodes_controlled (instinct ags))))
  ∧ sent c' = sent c.
Proof.
  intros H. apply handleAction_Some in H
    as (c1 & sc & ags & msg & Hui & Hws & _ & _ & Hags & Hmsg & -> & Hst).
  split_and!.
  - done.
  - exists msg. split; [done|]. cbn [ui with_ui].
    rewrite addLogEntry_log, last_drop_lt by (rewrite length_app; cbn; lia).
    apply last_snoc.
  - unfold updateTurn. read_text. done.
  - unfold updateTurn. read_text. done.
  - exists ags. split; [done|]. unfold updateTurn.
    cbn [ui with_ui]. rewrite updateAgentStats_instinct, updateAgentStats_strategist.
    split_and!; read_text; done.
  - unfold sent. cbn. by rewrite Hws.
Qed.

Lemma handleAction_reports_witness :
  ∃ c', handleAction sample_move JNull sample_snapshot "12:00:01" 1000
          (with_scene built_sample client_initial) = Some c'
    ∧ last (actionLog (ui c'))
      = Some "[12:00:01] Unit S moved to (1, 0)".
Proof.
  eexists. split; [vm_compute; reflexivity|].
  match goal with |- last (actionLog (ui ?c)) = _ =>
    destruct (handleAction_reports sample_move JNull sample_snapshot
                "12:00:01" 1000 (with_scene built_sample client_initial) c)
      as (_ & (msg & Hmsg & Hlast) & _)
  end; [vm_compute; reflexivity|].
  rewrite Hlast. injection Hmsg as <-. reflexivity.
Defined.

(** X5. A 'move' action without a destination makes [handleAction]
    throw, whether or not the scene knows the agent: [moveAgent] returns
    early for an unknown agent, but [formatAction] then reads the
    coordinates of the missing destination. *)
Theorem handleAction_move_needs_destination action ai state now clock
    (c : Client) :
  a_type action = JStr "move" → a_to action = None →
  handleAction action ai state now clock c = None.
Proof.
  intros Hty Hto.
  destruct (handleAction action ai state now clock c) as [c'|] eqn:H; [|done].
  apply handleAction_Some in H as (_ & _ & _ & msg & _ & _ & _ & _ & _ & Hmsg & _).
  unfold formatAction in Hmsg. rewrite Hty, Hto in Hmsg. done.
Qed.

Lemma handleAction_move_needs_destination_witness :
  handleAction
    {| a_type := JStr "move"; a_agent := JStr "ghost"; a_to := None;
       a_position := None; fuel_gained := JUndefined;
       new_fuel := JUndefined; from_agent := JUndefined |}
    JNull sample_snapshot "12:00:01" 1000
    (with_scene built_sample client_initial) = None.
Proof.
  by apply handleAction_move_needs_destination.
Defined.

(** ** The connection and the start button over a run *)

Lemma handleMessage_keeps message now clock c c' :
  handleMessage message now clock c = Some c' →
  isConnected c' = isConnected c ∧ disabled (ui c') = disabled (ui c).
Proof.
  unfold handleMessage, handleStateUpdate, handleGameStart, handleAction,
    handleGameOver, update_stats, showGameOver.
  intros H. destruct message; simplify_option_eq;
    repeat (case_match; simplify_option_eq); done.
Qed.

Lemma step_keeps e now clock c c' :
  step e now clock c = Some c' →
  isConnected c' = match e with
                   | SocketOpen => true
                   | SocketClose => false
                   | _ => isConnected c
                   end
  ∧ sent c `prefix_of` sent c'
  ∧ (is_Some (ws c) → is_Some (ws c'))
  ∧ disabled (ui c) ⊆ disabled (ui c').
Proof.
  intros H. destruct e; cbn [step] in H; simplify_eq;
    try (split_and!; done).
  - pose proof (handleMessage_ws _ _ _ _ _ H) as Hws.
    apply handleMessage_keeps in H as [-> ->]. unfold sent. rewrite Hws. done.
  - unfold startGame. destruct (isConnected c && _) eqn:E.
    + split_and!; try done; unfold sent; cbn; destruct (ws c); cbn;
        try done. by apply prefix_app_r.
    + split_and!; done.
  - unfold resetGame. destruct (isConnected c && _) eqn:E.
    + split_and!; try done; unfold sent; cbn; destruct (ws c); cbn;
        try done. by apply prefix_app_r.
    + split_and!; done.
  - split_and!; try done. cbn. set_solver.
  - unfold run_frame. destruct (foldl _ _ _). split_and!; done.
Qed.

(** X6. After any run of the page, the controller takes the socket for
    open exactly when the last open or close callback was an open (or,
    without any, when it did before); the socket created at start-up is
    never dropped, and what was sent before the run is a prefix of what
    has been sent after it. *)
Theorem connection_follows_socket (es : list (Event * string * Z))
    (c c' : Client) :
  run es c = Some c' →
  isConnected c' = link_after es (isConnected c)
  ∧ sent c `prefix_of` sent c'
  ∧ (is_Some (ws c) → is_Some (ws c')).
Proof.
  unfold run, link_after. revert c.
  induction es as [|[[e now] clock] es IH]; intros c H.
  - injection H as <-. done.
  - cbn [for_each] in H. apply bind_Some_inv in H as (c1 & H1 & H).
    cbn [fst snd] in H1. apply step_keeps in H1 as (Hl & Hp & Hw & _).
    apply IH in H as (Hl' & Hp' & Hw'). cbn [foldl fst snd].
    split_and!.
    + rewrite Hl', Hl. by destruct e.
    + by etrans.
    + auto.
Qed.

Lemma connection_follows_socket_witness :
  ∃ c', run [(SocketOpen, "t1", 0); (StartGame, "t2", 0);
             (SocketClose, "t3", 0); (StartGame, "t4", 0)] client_initial
        = Some c'
    ∧ isConnected c' = false ∧ length (sent c') = 1%nat.
Proof.
  eexists. split; [vm_compute; reflexivity|].
  match goal with |- isConnected ?c = _ ∧ _ =>
    destruct (connection_follows_socket
                [(SocketOpen, "t1", 0); (StartGame, "t2", 0);
                 (SocketClose, "t3", 0); (StartGame, "t4", 0)]
                client_initial c) as (Hl & _)
  end; [vm_compute; reflexivity|].
  split; [rewrite Hl; reflexivity | reflexivity].
Defined.

(** X7. A click on the start button disables it and opens the
    cinematic, and nothing that runs in the page afterwards enables the
    button again; the end of the cinematic hides it and says so in the
    log. *)
Theorem start_button_stays_disabled (es : list (Event * string * Z))
    now clock (c c1 c' : Client) :
  step StartClicked now clock c = Some c1 →
  run es c1 = Some c' →
  ("hidden" ∉ (classes_of "cinematic" (ui c1)))
  ∧ "start-btn" ∈ disabled (ui c')
  ∧ ∀ now' clock' c'', step CinematicOver now' clock' c' = Some c'' →
      "hidden" ∈ classes_of "cinematic" (ui c'')
      ∧ "start-btn" ∈ disabled (ui c'')
      ∧ last (actionLog (ui c''))
        = Some (log_entry now' "Mission started. Agents are now active.").
Proof.
  intros [= <-] Hrun.
  assert (Hmono : ∀ es c0 c2, run es c0 = Some c2 →
                    disabled (ui c0) ⊆ disabled (ui c2)).
  { clear. unfold run. induction es as [|[[e now] clock] es IH]; intros c0 c2 H.
    - by injection H as <-.
    - cbn [for_each] in H. apply bind_Some_inv in H as (c1 & H1 & H).
      apply step_keeps in H1 as (_ & _ & _ & Hd). apply IH in H. set_solver. }
  apply Hmono in Hrun.
  assert (Hin : "start-btn" ∈ disabled (ui c')).
  { apply Hrun. cbn. apply elem_of_union. right. by apply elem_of_singleton. }
  split_and!.
  - unfold classes_of. cbn. rewrite lookup_insert_eq. cbn.
    intros [_ Hn]%elem_of_difference. apply Hn. by apply elem_of_singleton.
  - done.
  - intros now' clock' c'' [= <-]. split_and!.
    + unfold classes_of. cbn. rewrite lookup_insert_eq. cbn.
      apply elem_of_union. right. by apply elem_of_singleton.
    + done.
    + cbn [ui with_ui]. unfold cinematicDone.
      rewrite addLogEntry_log, last_drop_lt by (rewrite length_app; cbn; lia).
      apply last_snoc.
Qed.

Lemma start_button_stays_disabled_witness :
  ∃ c', run [(SocketOpen, "t1", 0); (CinematicOver, "t2", 0)]
          (with_ui onStartGame client_initial) = Some c'
    ∧ "start-btn" ∈ disabled (ui c').
Proof.
  eexists. split; [vm_compute; reflexivity|].
  match goal with |- _ ∈ disabled (ui ?c) =>
    destruct (start_button_stays_disabled
                [(SocketOpen, "t1", 0); (CinematicOver, "t2", 0)] "t0" 0
                client_initial (with_ui onStartGame client_initial) c)
      as (_ & H & _)
  end; [reflexivity | vm_compute; reflexivity | exact H].
Defined.

(** ** When a build throws *)

Lemma for_each_Some_inv {A S} (body : A → S → option S) l s s' a :
  for_each body l s = Some s' → a ∈ l → ∃ s0, is_Some (body a s0).
Proof.
  revert s. induction l as [|b l IH]; intros s H Ha.
  - by apply elem_of_nil in Ha.
  - cbn in H. apply bind_Some_inv in H as (s1 & H1 & H).
    apply elem_of_cons in Ha as [->|Ha]; [by exists s; eexists|eauto].
Qed.

Lemma for_each_cell_Some body gameState s s' :
  for_each_cell body gameState s = Some s' → rows_present gameState.
Proof.
  intros H y Hy. unfold for_each_cell in H.
  eapply (for_each_Some_inv _ _ _ _ y) in H as [s0 [s1 H]].
  - apply bind_Some_inv in H as (row & -> & _). by eexists.
  - apply elem_of_seqZ. lia.
Qed.

Lemma buildScene_Some gameState s s' :
  buildScene gameState s = Some s' →
  rows_present gameState ∧ is_Some (agents gameState).
Proof.
  unfold buildScene. intros H. apply bind_Some_inv in H as (s1 & H1 & H).
  apply for_each_cell_Some in H1. split; [done|].
  unfold place_agents in H. apply bind_Some_inv in H as (ags & -> & _).
  by eexists.
Qed.

Lemma buildScene_001_Some gameState s s' :
  buildScene_001 gameState s = Some s' →
  rows_present gameState ∧ is_Some (agents gameState).
Proof.
  unfold buildScene_001. intros H. apply bind_Some_inv in H as (s1 & H1 & H).
  apply for_each_cell_Some in H1. split; [done|].
  apply bind_Some_inv in H as (s2 & H2 & _).
  unfold place_agents in H2. apply bind_Some_inv in H2 as (ags & -> & _).
  by eexists.
Qed.


(** ** What the messages do to the page *)

(** X9. A [game_over] message that is handled to the end carried the
    agents in its final state. Besides the panel of C1 it refreshes the
    six live figures from that state, stores it as the game state and
    logs the winner as the message gives it, or DRAW when the value is
    falsy; it leaves the turn counter, the scene, the waiting animations
    and the socket as they were. *)
Theorem game_over_effects (data : GameOver) now clock (c c' : Client) :
  handleMessage (GameEnded data) now clock c = Some c' →
  ∃ ags, agents (final_state data) = Some ags
    ∧ gameState c' = Some (final_state data)
    ∧ scene c' = scene c ∧ pending c' = pending c ∧ ws c' = ws c
    ∧ textContent (ui c') !! "current-turn"
      = textContent (ui c) !! "current-turn"
    ∧ textContent (ui c') !! "max-turns" = textContent (ui c) !! "max-turns"
    ∧ textContent (ui c') !! "strategist-nodes"
      = Some (as_text (nodes_controlled (strategist ags)))
    ∧ textContent (ui c') !! "strategist-fuel"
      = Some (as_text (fuel (strategist ags)))
    ∧ textContent (ui c') !! "strategist-score"
      = Some (as_text (score (strategist ags)))
    ∧ textContent (ui c') !! "instinct-nodes"
      = Some (as_text (nodes_controlled (instinct ags)))
    ∧ textContent (ui c') !! "instinct-fuel"
      = Some (as_text (fuel (instinct ags)))
    ∧ textContent (ui c') !! "instinct-score"
      = Some (as_text (score (instinct ags)))
    ∧ last (actionLog (ui c'))
      = Some (log_entry now
                ("GAME OVER - Winner: "
                 +:+ (if truthy (winner data) then to_string (winner data)
                      else "DRAW"))).
Proof.
  unfold handleMessage, handleGameOver. intros H.
  apply bind_Some_inv in H as (c1 & H1 & H).
  apply update_stats_Some in H1 as (ags & Hags & ->).
  apply bind_Some_inv in H as (u & Hu & [= <-]).
  unfold showGameOver in Hu. rewrite Hags in Hu. cbn [mbind option_bind] in Hu.
  injection Hu as <-. exists ags.
  rewrite updateAgentStats_strategist, updateAgentStats_instinct.
  split_and!; try done.
  1-8: destruct (is_str (winner data) "strategist"),
         (is_str (winner data) "instinct"); read_text; done.
  cbn [ui with_ui]. rewrite addLogEntry_log.
  rewrite last_drop_lt by (rewrite length_app; cbn; lia).
  rewrite last_snoc. unfold js_or. by destruct (truthy (winner data)).
Qed.

Lemma game_over_effects_witness :
  ∃ c', handleMessage (GameEnded (sample_game_over JNull)) "12:00:00" 0
          client_initial = Some c'
    ∧ last (actionLog (ui c'))
      = Some "[12:00:00] GAME OVER - Winner: DRAW"
    ∧ textContent (ui c') !! "current-turn" = None.
Proof.
  eexists. split; [vm_compute; reflexivity|].
  match goal with |- last (actionLog (ui ?c)) = _ ∧ _ =>
    destruct (game_over_effects (sample_game_over JNull) "12:00:00" 0
                client_initial c)
      as (ags & _ & _ & _ & _ & _ & Hturn & _ & _ & _ & _ & _ & _ & _ & Hlog)
  end; [vm_compute; reflexivity|].
  split; [exact Hlog | exact Hturn].
Defined.





(** ** The registries after a build *)

Lemma registry_cleared_js r gameState s k :
  registry r (cleared_js gameState s) !! k = None.
Proof. unfold cleared_js. case_bool_decide; by destruct r. Qed.

Lemma registry_spawn_all_is_Some r k bs s :
  is_Some (registry r (spawn_all bs s) !! k)
  ↔ is_Some (registry r s !! k) ∨ (r, k) ∈ bs.*1.
Proof.
  revert s. induction bs as [|[[r' k'] o] bs IH]; intros s.
  - cbn. split; [by left|]. intros [H|H]; [done|]. by apply elem_of_nil in H.
  - cbn [spawn_all foldl]. fold (spawn_all bs (spawn s (r', k', o))).
    rewrite IH. unfold spawn. cbn [fst snd]. rewrite registry_add_entity.
    rewrite fmap_cons, elem_of_cons. cbn [fst].
    case_decide as Heq.
    + destruct Heq as [-> ->]. split; [by right; left|by left; eexists].
    + split; [tauto|]. intros [H|[H|H]]; [tauto| |tauto].
      destruct Heq. by injection H.
Qed.

(** What a registry of a built scene points to. *)
Lemma built_entry gameState s s' r k i :
  buildScene gameState s = Some s' → registry r s' !! k = Some i →
  ∃ ags j o, agents gameState = Some ags
    ∧ plan_js (cellSize s) gameState ags !! j = Some (r, k, o)
    ∧ i = (length (store s) + j)%nat
    ∧ store s' !! i = Some o.
Proof.
  intros Hb Hi. destruct (buildScene_Some _ _ _ Hb) as [Hrows [ags Hags]].
  rewrite (buildScene_spawns _ _ _ Hrows Hags) in Hb. injection Hb as <-.
  apply registry_spawn_all_inv in Hi as [Hi|(j & o & Hj & ->)].
  { by rewrite registry_cleared_js in Hi. }
  exists ags, j, o. rewrite store_cleared_js. split_and!; try done.
  rewrite store_spawn_all, store_cleared_js.
  rewrite lookup_app_r by lia.
  replace (length (store s) + j - length (store s))%nat with j by lia.
  by rewrite list_lookup_fmap, Hj.
Qed.

Lemma plan_js_keys cs gameState ags r k :
  (r, k) ∈ (plan_js cs gameState ags).*1
  ↔ (r = REnvironment ∧ ∃ p, p ∈ wall_cells gameState ∧ k = key p)
    ∨ (r = RFuelStations
       ∧ ∃ p, p ∈ fs_position <$> fuel_stations gameState ∧ k = key p)
    ∨ (r = RLightNodes
       ∧ ∃ p, p ∈ ln_position <$> light_nodes gameState ∧ k = key p)
    ∨ (r = RAgents ∧ (k = "strategist" ∨ k = "instinct")).
Proof.
  unfold plan_js, agent_spawns. rewrite !fmap_app, !elem_of_app.
  rewrite <- !list_fmap_compose. cbn [fmap list_fmap fst agent_spawn].
  rewrite !list_elem_of_fmap, !elem_of_cons, elem_of_nil.
  split.
  - intros [(p & [= -> ->] & Hp)|[(fs & [= -> ->] & Hfs)
             |[(n & [= -> ->] & Hn)|[[= -> ->]|[[= -> ->]|[]]]]]].
    + left. eauto.
    + right; left. split; [done|]. exists (fs_position fs).
      split; [|done]. apply list_elem_of_fmap. eauto.
    + right; right; left. split; [done|]. exists (ln_position n).
      split; [|done]. apply list_elem_of_fmap. eauto.
    + right; right; right. eauto.
    + right; right; right. eauto.
  - intros [[-> (p & Hp & ->)]|[[-> (p & Hp & ->)]
             |[[-> (p & Hp & ->)]|[-> [->| ->]]]]].
    + left. eauto.
    + right; left. apply list_elem_of_fmap in Hp as (fs & -> & Hfs). eauto.
    + right; right; left.
      apply list_elem_of_fmap in Hp as (n & -> & Hn). eauto.
    + right; right; right. by left.
    + right; right; right. by right; left.
Qed.

(** X12. After a build of scene.js the registries hold exactly what the
    snapshot names: a cell has an entry among the light nodes when a
    listed node stands on it, among the stations when a listed station
    does, in the environment when the grid has a wall there, and the
    agents are the two units. Entries of the scene before are gone. *)
Theorem buildScene_registers_listed (gameState : Snapshot) (s s' : GameScene) :
  buildScene gameState s = Some s' →
  (∀ p, is_Some (lightNodes s' !! key p)
        ↔ p ∈ ln_position <$> light_nodes gameState)
  ∧ (∀ p, is_Some (fuelStations s' !! key p)
          ↔ p ∈ fs_position <$> fuel_stations gameState)
  ∧ (∀ p, is_Some (environment s' !! key p) ↔ p ∈ wall_cells gameState)
  ∧ (∀ name, is_Some (sceneAgents s' !! name)
             ↔ name = "strategist" ∨ name = "instinct").
Proof.
  intros Hb. destruct (buildScene_Some _ _ _ Hb) as [Hrows [ags Hags]].
  rewrite (buildScene_spawns _ _ _ Hrows Hags) in Hb. injection Hb as <-.
  assert (Hreg : ∀ r k,
    is_Some (registry r (spawn_all (plan_js (cellSize s) gameState ags)
                           (cleared_js gameState s)) !! k)
    ↔ (r, k) ∈ (plan_js (cellSize s) gameState ags).*1).
  { intros r k. rewrite registry_spawn_all_is_Some, registry_cleared_js.
    split; [|by right]. intros [[? [=]]|H]; done. }
  split_and!.
  - intros p. rewrite (Hreg RLightNodes), plan_js_keys. split.
    + intros [[[=] _]|[[[=] _]|[[_ (q & Hq & ->%(inj key))]|[[=] _]]]]. done.
    + intros Hp. right; right; left. eauto.
  - intros p. rewrite (Hreg RFuelStations), plan_js_keys. split.
    + intros [[[=] _]|[[_ (q & Hq & ->%(inj key))]|[[[=] _]|[[=] _]]]]. done.
    + intros Hp. right; left. eauto.
  - intros p. rewrite (Hreg REnvironment), plan_js_keys. split.
    + intros [[_ (q & Hq & ->%(inj key))]|[[[=] _]|[[[=] _]|[[=] _]]]]. done.
    + intros Hp. left. eauto.
  - intros name. rewrite (Hreg RAgents), plan_js_keys. split.
    + intros [[[=] _]|[[[=] _]|[[[=] _]|[_ H]]]]. done.
    + intros H. right; right; right. done.
Qed.

Lemma buildScene_registers_listed_witness :
  is_Some (lightNodes built_sample !! key (at_cell 0 1))
  ∧ ¬ is_Some (lightNodes built_sample !! key (at_cell 1 1)).
Proof.
  destruct (buildScene_registers_listed sample_snapshot (scene_initial 16)
              built_sample) as (Hn & _); [vm_compute; reflexivity|].
  split.
  - apply Hn. vm_compute. apply list_elem_of_here.
  - intros H%Hn. vm_compute in H.
    apply list_elem_of_singleton in H. discriminate.
Defined.

Lemma elem_of_plan_js cs gameState ags b :
  b ∈ plan_js cs gameState ags
  ↔ (∃ p, p ∈ wall_cells gameState ∧ b = wall_spawn scene_js cs p)
    ∨ (∃ fs, fs ∈ fuel_stations gameState
             ∧ b = station_spawn scene_js cs (fs_position fs))
    ∨ (∃ n, n ∈ light_nodes gameState
            ∧ b = node_spawn scene_js cs (ln_position n) (controlled_by n))
    ∨ b ∈ agent_spawns cs ags.
Proof.
  unfold plan_js. rewrite !elem_of_app, !list_elem_of_fmap.
  split.
  - intros [(p & -> & Hp)|[(fs & -> & Hfs)|[(n & -> & Hn)|H]]]; eauto 10.
  - intros [(p & Hp & ->)|[(fs & Hfs & ->)|[(n & Hn & ->)|H]]]; eauto 10.
Qed.

Lemma alter_fixed {A} (f : A → A) i (l : list A) x :
  l !! i = Some x → f x = x → alter f i l = l.
Proof.
  revert i. induction l as [|y l IH]; intros [|i] Hi Hx; try done.
  - cbn in Hi. injection Hi as ->. cbn. by rewrite Hx.
  - cbn in *. f_equal. eauto.
Qed.

Lemma set_store_same s : set_store (store s) s = s.
Proof. by destruct s. Qed.

(** X13. A build of scene.js lights every station as an active one,
    whatever [is_active] says in the snapshot: the entity registered
    for a cell is a station in the middle of that cell with the glow
    and the lamp of an active station. An update that reports a station
    active therefore changes nothing in a scene just built. *)
Theorem buildScene_lights_every_station (gameState : Snapshot)
    (s s' : GameScene) :
  buildScene gameState s = Some s' →
  (∀ p id, fuelStations s' !! key p = Some id →
     ∃ o, store s' !! id = Some o
       ∧ shown o = placed (cellSize s) KFuelStation p JNull
       ∧ emissiveIntensity o = 3 # 10 ∧ lightIntensity o = 1%Q)
  ∧ (∀ position isActive s'',
       truthy isActive = true →
       updateFuelStation scene_js position isActive s' = Some s'' →
       s'' = s').
Proof.
  intros Hb.
  assert (Hst : ∀ p id, fuelStations s' !! key p = Some id →
            store s' !! id
            = Some (station_spawn scene_js (cellSize s) p).2).
  { intros p id Hid.
    destruct (built_entry _ _ _ RFuelStations _ _ Hb Hid)
      as (ags & j & o & Hags & Hj & -> & Ho).
    rewrite Ho. f_equal. apply list_elem_of_lookup_2 in Hj.
    apply elem_of_plan_js in Hj
      as [(q & _ & [=])|[(fs & _ & H)|[(n & _ & [=])|H]]].
    - injection H as ->%(inj key) ->. done.
    - unfold agent_spawns in H. rewrite !elem_of_cons, elem_of_nil in H.
      destruct H as [[=]|[[=]|[]]]. }
  split.
  - intros p id Hid. eexists. split; [by apply Hst|]. done.
  - intros [p|] isActive s'' Ha; [|done]. cbn.
    destruct (fuelStations s' !! key p) as [id|] eqn:Hid; [|congruence].
    intros [= <-]. rewrite (alter_fixed _ _ _ _ (Hst _ _ Hid)).
    + apply set_store_same.
    + unfold restation. rewrite Ha. done.
Qed.

Lemma buildScene_lights_every_station_witness :
  updateFuelStation scene_js (Some (at_cell 1 0)) (JBool true) built_sample
  = Some built_sample.
Proof.
  destruct (buildScene_lights_every_station sample_snapshot (scene_initial 16)
              built_sample) as (_ & H); [vm_compute; reflexivity|].
  destruct (updateFuelStation scene_js (Some (at_cell 1 0)) (JBool true)
              built_sample) as [s''|] eqn:E.
  - f_equal. by apply (H (Some (at_cell 1 0)) (JBool true)).
  - vm_compute in E. discriminate.
Defined.

(** X14. Of the listed stations a build reads the positions only. In
    scene.js two snapshots that differ in nothing but the [is_active]
    flags of their stations build the same scene; the older version
    does not read the list of stations at all. *)
Theorem builds_ignore_is_active (gameState : Snapshot)
    (stations : list FuelStationData) (s : GameScene) :
  (fs_position <$> stations = fs_position <$> fuel_stations gameState →
   buildScene (with_fuel_stations stations gameState) s
   = buildScene gameState s)
  ∧ buildScene_001 (with_fuel_stations stations gameState) s
    = buildScene_001 gameState s.
Proof.
  split; [|done]. intros Hpos. unfold buildScene.
  change (grid_size (with_fuel_stations stations gameState))
    with (grid_size gameState).
  set (s0 := if bool_decide (grid_size gameState = 0) then clear_scene s
             else set_gridSize (grid_size gameState) (clear_scene s)).
  change (for_each_cell ?f (with_fuel_stations stations gameState))
    with (for_each_cell f gameState).
  destruct (for_each_cell _ gameState s0) as [s1|]; [|done].
  cbn [mbind option_bind light_nodes fuel_stations with_fuel_stations].
  assert (Hf : ∀ l s,
    foldl (λ s fs, createFuelStation scene_js (fs_position fs) s) s l
    = foldl (λ s p, createFuelStation scene_js p s) s (fs_position <$> l)).
  { clear. induction l as [|fs l IH]; intros s; [done|]. cbn. apply IH. }
  by rewrite !Hf, Hpos.
Qed.

Lemma builds_ignore_is_active_witness :
  buildScene
    (with_fuel_stations
       [{| fs_position := at_cell 1 0; is_active := JBool false |}]
       sample_snapshot) (scene_initial 16)
  = Some built_sample.
Proof.
  destruct (builds_ignore_is_active sample_snapshot
              [{| fs_position := at_cell 1 0; is_active := JBool false |}]
              (scene_initial 16)) as [H _].
  rewrite H; reflexivity.
Defined.

(** X15. The key of a cell in the registries tells the cells apart: two
    positions have the same key only when they are the same position,
    negative coordinates included. *)
Theorem key_tells_cells_apart (p q : Position) : key p = key q ↔ p = q.
Proof. split; [apply (inj key)|by intros ->]. Qed.

(** ** The grid size *)

Lemma gridSize_relit nodes s : gridSize (relit nodes s) = gridSize s.
Proof.
  revert s. induction nodes as [|n nodes IH]; intros s; [done|].
  cbn. unfold relit in IH. rewrite IH. unfold relight_at.
  by destruct (lightNodes s !! _).
Qed.

Lemma cellSize_relit nodes s : cellSize (relit nodes s) = cellSize s.
Proof.
  revert s. induction nodes as [|n nodes IH]; intros s; [done|].
  cbn. unfold relit in IH. rewrite IH. unfold relight_at.
  by destruct (lightNodes s !! _).
Qed.

(** X16. A build of scene.js takes the size of the grid from the
    snapshot unless that size is 0, and the older version keeps the size
    the scene was constructed with; neither changes the size of a
    cell. *)
Theorem buildScene_grid_size (gameState : Snapshot) (s s' : GameScene) :
  (buildScene gameState s = Some s' →
   gridSize s' = (if bool_decide (grid_size gameState = 0) then gridSize s
                  else grid_size gameState)
   ∧ cellSize s' = cellSize s)
  ∧ (buildScene_001 gameState s = Some s' →
     gridSize s' = gridSize s ∧ cellSize s' = cellSize s).
Proof.
  split; intros Hb.
  - destruct (buildScene_Some _ _ _ Hb) as [Hrows [ags Hags]].
    rewrite (buildScene_spawns _ _ _ Hrows Hags) in Hb. injection Hb as <-.
    rewrite gridSize_spawn_all, cellSize_spawn_all. unfold cleared_js.
    by case_bool_decide.
  - destruct (buildScene_001_Some _ _ _ Hb) as [Hrows [ags Hags]].
    rewrite (buildScene_001_spawns _ _ _ Hrows Hags) in Hb.
    injection Hb as <-.
    by rewrite gridSize_relit, cellSize_relit, gridSize_spawn_all,
      cellSize_spawn_all.
Qed.

Lemma buildScene_grid_size_witness :
  gridSize built_sample = 3 ∧ cellSize built_sample = 2.
Proof.
  destruct (buildScene_grid_size sample_snapshot (scene_initial 16)
              built_sample) as [H _].
  apply H. vm_compute. reflexivity.
Defined.

(** ** The camera controls *)

Lemma wheel_in_range d k :
  (10 <= cam_y (camera (wheel d k)) <= 50)%Q.
Proof.
  cbn. split; [apply Q.le_max_l|].
  apply Q.max_lub; [done|apply Q.le_min_l].
Qed.

Lemma on_mouse_keeps_range e k :
  (10 <= cam_y (camera k) <= 50)%Q →
  (10 <= cam_y (camera (on_mouse k e)) <= 50)%Q.
Proof.
  intros H. destruct e; try done.
  - cbn. by destruct (isDragging k).
  - apply wheel_in_range.
Qed.

(** X17. Once the wheel has been turned, the camera is between 10 and
    50 above the ground and stays there whatever the mouse does next;
    a camera that starts in this range never leaves it. *)
Theorem zoom_stays_in_range (k : Controls) (es : list MouseEvent) :
  (10 <= cam_y (camera k) <= 50)%Q ∨ (∃ d, Wheel d ∈ es) →
  (10 <= cam_y (camera (foldl on_mouse k es)) <= 50)%Q.
Proof.
  revert k. induction es as [|e es IH]; intros k H.
  - destruct H as [H|[d H]]; [done|]. by apply elem_of_nil in H.
  - cbn [foldl]. apply IH. destruct H as [H|[d H]].
    + left. by apply on_mouse_keeps_range.
    + apply elem_of_cons in H as [<-|H]; [|by right; exists d].
      left. apply wheel_in_range.
Qed.

Lemma zoom_stays_in_range_witness :
  (10 <= cam_y (camera (foldl on_mouse (controls_initial 40)
                          [Wheel 120; MouseDown 0 0; MouseMove 5 5]))
   <= 50)%Q.
Proof.
  apply zoom_stays_in_range. right. exists 120%Q. apply list_elem_of_here.
Defined.

(** X18. The mouse moves the camera sideways only while a button is
    held down, and never in height: without a turn of the wheel the
    height stays as it is, and without a press of the button a camera
    that is not being dragged stays where it is on the ground plane. *)
Theorem camera_moves_only_when_dragged (k : Controls) (es : list MouseEvent) :
  ((∀ d, Wheel d ∉ es) →
   cam_y (camera (foldl on_mouse k es)) = cam_y (camera k))
  ∧ (isDragging k = false → (∀ x y, MouseDown x y ∉ es) →
     cam_x (camera (foldl on_mouse k es)) = cam_x (camera k)
     ∧ cam_z (camera (foldl on_mouse k es)) = cam_z (camera k)).
Proof.
  split.
  - revert k. induction es as [|e es IH]; intros k H; [done|].
    cbn [foldl]. rewrite IH.
    + destruct e; try done.
      * cbn. by destruct (isDragging k).
      * destruct (H deltaY). apply list_elem_of_here.
    + intros d Hd. apply (H d). by apply list_elem_of_further.
  - revert k. induction es as [|e es IH]; intros k Hk H; [done|].
    cbn [foldl]. destruct (IH (on_mouse k e)) as [-> ->].
    + destruct e; try done.
      destruct (H offsetX offsetY). apply list_elem_of_here.
    + intros x y Hd. apply (H x y). by apply list_elem_of_further.
    + destruct e; try done. cbn. by rewrite Hk.
Qed.

Lemma camera_moves_only_when_dragged_witness :
  cam_x (camera (foldl on_mouse (controls_initial 16)
                   [MouseMove 5 5; Wheel 120; MouseMove 9 1]))
  = cam_x (camera (controls_initial 16)).
Proof.
  destruct (camera_moves_only_when_dragged (controls_initial 16)
              [MouseMove 5 5; Wheel 120; MouseMove 9 1]) as [_ H].
  apply H; [reflexivity|].
  intros x y Hd. rewrite !elem_of_cons, elem_of_nil in Hd.
  destruct Hd as [[=]|[[=]|[[=]|[]]]].
Defined.

(** ** Moves in flight *)

Lemma progress_bounds (a : MoveAnimation) (now : Z) :
  0 < duration a → startTime a ≤ now →
  (0 <= progress_at a now <= 1)%Q.
Proof.
  intros Hd Hnow. unfold progress_at. split; [|apply Q.le_min_r].
  apply Q.min_glb; [|done]. apply Qle_shift_div_l.
  - change 0%Q with (inject_Z 0). rewrite <- Zlt_Qlt. done.
  - rewrite Qmult_0_l. change 0%Q with (inject_Z 0). rewrite <- Zle_Qle. lia.
Qed.

Lemma eased_bounds (p : Q) : (0 <= p <= 1)%Q → (0 <= eased p <= 1)%Q.
Proof.
  intros [H0 H1]. unfold eased. destruct (Qlt_le_dec p (1 # 2)).
  - split; nra.
  - assert (Hq : (1 - (-2 * p + 2) * (-2 * p + 2) / 2
                  == 1 - 2 * (1 - p) * (1 - p))%Q) by field.
    rewrite Hq. split; nra.
Qed.

Lemma between_ends (sx tx e : Q) :
  (0 <= e <= 1)%Q →
  (Qmin sx tx <= sx + (tx - sx) * e <= Qmax sx tx)%Q.
Proof.
  intros [H0 H1]. destruct (Qlt_le_dec sx tx).
  - rewrite Q.min_l, Q.max_r by lra. split; nra.
  - rewrite Q.min_r, Q.max_l by lra. split; nra.
Qed.

(** X19. A frame of a move never overshoots: from the moment the move
    starts, the mesh is between its starting point and the centre of
    the target cell on both axes, and the frame changes neither its
    height nor its look, nor any other entity. *)
Theorem move_stays_between (a : MoveAnimation) (now : Z) (s : GameScene)
    (m : Object3D) :
  0 < duration a → startTime a ≤ now →
  store s !! subject a = Some m →
  (∃ m', store (animate a now s).1 !! subject a = Some m'
     ∧ (Qmin (startX a) (targetX a) <= at_x m'
        <= Qmax (startX a) (targetX a))%Q
     ∧ (Qmin (startZ a) (targetZ a) <= at_z m'
        <= Qmax (startZ a) (targetZ a))%Q
     ∧ at_y m' = at_y m ∧ kind m' = kind m ∧ colour m' = colour m
     ∧ controlledBy m' = controlledBy m)
  ∧ (∀ i, i ≠ subject a → store (animate a now s).1 !! i = store s !! i)
  ∧ children (animate a now s).1 = children s.
Proof.
  intros Hd Hnow Hm.
  pose proof (eased_bounds _ (progress_bounds a now Hd Hnow)) as He.
  unfold animate. cbn [fst store set_store children]. split_and!.
  - rewrite list_lookup_alter_eq, Hm. cbn [fmap option_fmap option_map].
    eexists. split; [reflexivity|]. cbn [at_x at_y at_z move_to kind colour
      controlledBy].
    split_and!; try done; by apply between_ends.
  - intros i Hi. by rewrite list_lookup_alter_ne.
  - done.
Qed.

Lemma move_stays_between_witness :
  ∃ a m', moveAgent scene_js "strategist" (Some (at_cell 2 0)) 1000 1000
            built_sample = Some ((animate a 1000 built_sample).1, Some a)
    ∧ store (animate a 1100 built_sample).1 !! subject a = Some m'
    ∧ (Qmin (startX a) (targetX a) <= at_x m'
       <= Qmax (startX a) (targetX a))%Q.
Proof.
  set (a := {| subject := 3; startX := 2 # 2; startZ := 2 # 2;
               targetX := cell_centre 2 2; targetZ := cell_centre 2 0;
               startTime := 1000; duration := 300 |}).
  destruct (move_stays_between a 1100 built_sample
              {| kind := KAgent; at_x := 2 # 2; at_y := 0; at_z := 2 # 2;
                 colour := 0x00ff88; emissiveIntensity := 3 # 10;
                 lightIntensity := 1; controlledBy := JUndefined |})
    as ((m' & Hm' & Hx & _) & _);
    [reflexivity | cbn; lia | vm_compute; reflexivity |].
  exists a, m'. split; [vm_compute; reflexivity|]. split; [exact Hm'|].
  exact Hx.
Defined.

Lemma run_frame_fold clock (l : list MoveAnimation)
    (acc : GameScene * list MoveAnimation) :
  let F := λ (acc : GameScene * list MoveAnimation) a,
             let '(sc', again) := animate a clock acc.1 in
             (sc', if again then (acc.2 ++ [a])%list else acc.2) in
  (∀ a, a ∈ (foldl F acc l).2
        ↔ a ∈ acc.2 ∨ (a ∈ l ∧ (progress_at a clock < 1)%Q))
  ∧ children (foldl F acc l).1 = children acc.1.
Proof.
  intros F. revert acc. induction l as [|b l IH]; intros acc.
  - cbn. split; [|done]. intros a. rewrite elem_of_nil. tauto.
  - cbn [foldl]. destruct (IH (F acc b)) as [IH1 IH2]. split.
    + intros a. rewrite IH1, elem_of_cons. unfold F at 1, animate.
      cbn [fst snd]. destruct (Qlt_le_dec (progress_at b clock) 1) as [Hlt|Hge].
      * rewrite elem_of_app, list_elem_of_singleton. split.
        -- intros [[H| ->]|[H1 H2]]; eauto.
        -- intros [H|[[->|H1] H2]]; eauto.
      * split; [intros [H|[H1 H2]]; eauto|].
        intros [H|[[->|H1] H2]]; eauto.
        exfalso. eapply Qlt_not_le; eassumption.
    + rewrite IH2. unfold F, animate. done.
Qed.

(** X20. An animation frame drops exactly the moves whose time is up:
    the moves that wait for the next frame are those that waited for
    this one and have run for less than their duration. The frame adds
    no entity to the scene and removes none, and it touches neither the
    HUD nor the socket. *)
Theorem frame_keeps_unfinished_moves (clock : Z) (c : Client) :
  (∀ a, a ∈ pending c → 0 < duration a) →
  (∀ a, a ∈ pending (run_frame clock c)
        ↔ a ∈ pending c ∧ clock < startTime a + duration a)
  ∧ children (scene (run_frame clock c)) = children (scene c)
  ∧ ui (run_frame clock c) = ui c ∧ ws (run_frame clock c) = ws c
  ∧ isConnected (run_frame clock c) = isConnected c.
Proof.
  intros Hd. unfold run_frame.
  destruct (run_frame_fold clock (pending c) (scene c, [])) as [H1 H2].
  cbn zeta in H1, H2. destruct (foldl _ _ _) as [sc waiting].
  cbn [pending scene ui ws isConnected]. split_and!; try done.
  intros a. rewrite H1. cbn [snd]. rewrite elem_of_nil. split.
  - intros [[]|[Ha Hlt]]. split; [done|].
    destruct (Z_lt_le_dec clock (startTime a + duration a)) as [|Hge]; [done|].
    pose proof (progress_done a clock (Hd a Ha) Hge) as Hp.
    rewrite Hp in Hlt. discriminate.
  - intros [Ha Hlt]. right. split; [done|].
    by apply progress_running; [apply Hd|].
Qed.

Lemma frame_keeps_unfinished_moves_witness :
  ∃ c a, handleMessage (ActionTaken sample_move JNull sample_snapshot)
           "12:00:00" 1000
           (with_scene built_sample client_initial) = Some c
    ∧ pending c = [a]
    ∧ pending (run_frame 1100 c) = [a]
    ∧ ¬ a ∈ pending (run_frame 1300 c).
Proof.
  eexists. eexists. split; [vm_compute; reflexivity|].
  split; [reflexivity|]. split; [vm_compute; reflexivity|].
  match goal with |- ¬ ?a ∈ pending (run_frame 1300 ?c) =>
    destruct (frame_keeps_unfinished_moves 1300 c) as [H _]
  end.
  - intros a Ha. apply list_elem_of_singleton in Ha as ->. reflexivity.
  - intros [_ Hlt]%H. cbn in Hlt. lia.
Defined.

Lemma omap_ext_in {A B} (f g : A → option B) (l : list A) :
  (∀ i, i ∈ l → f i = g i) → omap f l = omap g l.
Proof.
  induction l as [|i l IH]; intros H; [done|]. cbn.
  rewrite (H i) by apply list_elem_of_here.
  rewrite IH; [done|]. intros j Hj. apply H. by apply list_elem_of_further.
Qed.

(** X21. A move that is still in flight when the scene is rebuilt moves
    a mesh that is no longer in the scene: its later frames change
    nothing of what the rebuilt scene holds, so the agent is drawn where
    the snapshot of the rebuild puts it. *)
Theorem stale_move_is_invisible (s s1 s2 : GameScene) agentType target
    (started now : Z) (a : MoveAnimation) (gameState : Snapshot) :
  scene_reachable s →
  moveAgent scene_js agentType target started now s = Some (s1, Some a) →
  buildScene gameState s1 = Some s2 →
  ∀ clock, entities (animate a clock s2).1 = entities s2.
Proof.
  intros Hreach Hmove Hb clock.
  pose proof (scene_reachable_registered _
                (reach_move _ _ _ _ _ _ _ Hreach Hmove)) as Hreg.
  unfold moveAgent in Hmove.
  destruct (sceneAgents s !! agentType) as [id|]; [|done].
  destruct target as [p|]; [|done]. cbn [mbind option_bind] in Hmove.
  destruct (store s !! id) as [mesh|] eqn:Hmesh; [|done].
  cbn [mbind option_bind] in Hmove.
  destruct (animate _ now s) as [s0 again] eqn:Ean.
  destruct again; [|done]. injection Hmove as <- <-.
  assert (Hlen : (id < length (store s0))%nat).
  { unfold animate in Ean. injection Ean as <- _. cbn.
    rewrite length_alter. by eapply lookup_lt_Some. }
  destruct (buildScene_Some _ _ _ Hb) as [Hrows [ags Hags]].
  rewrite (buildScene_spawns _ _ _ Hrows Hags) in Hb. injection Hb as <-.
  unfold entities, animate. cbn [fst children store set_store subject].
  apply omap_ext_in. intros i Hi.
  rewrite children_spawn_all, children_cleared_js in Hi.
  rewrite (children_clear_registered _ Hreg), app_nil_l in Hi.
  apply elem_of_seq in Hi. rewrite store_cleared_js in Hi.
  apply list_lookup_alter_ne. lia.
Qed.

Lemma stale_move_is_invisible_witness :
  ∃ s1 a s2, moveAgent scene_js "strategist" (Some (at_cell 2 0)) 1000 1000
               built_sample = Some (s1, Some a)
    ∧ buildScene sample_snapshot s1 = Some s2
    ∧ entities (animate a 1300 s2).1 = entities s2.
Proof.
  eexists. eexists. eexists. split; [vm_compute; reflexivity|].
  split; [vm_compute; reflexivity|].
  eapply (stale_move_is_invisible built_sample _ _ "strategist"
            (Some (at_cell 2 0)) 1000 1000 _ sample_snapshot).
  - apply built_sample_reachable.
  - vm_compute. reflexivity.
  - vm_compute. reflexivity.
Defined.

(** ** The older scene over any number of builds *)

Lemma for_each_invariant {A S} (P : S → Prop) (body : A → S → option S)
    (l : list A) (s s' : S) :
  (∀ a s s', P s → body a s = Some s' → P s') →
  P s → for_each body l s = Some s' → P s'.
Proof.
  intros Hstep. revert s. induction l as [|a l IH]; intros s Hs H.
  - by injection H as <-.
  - cbn in H. apply bind_Some_inv in H as (s1 & H1 & H). eauto.
Qed.

(** X22. In the older scene every build starts afresh, whatever was
    built before and from whatever snapshots: after any number of
    builds the scene shows exactly what the grid of the last snapshot
    marks, a wall, door, window, tree, fuel station or light node in the
    middle of each cell of that type, and the two agents. A light node
    carries the controller of the last listed node on its cell; a
    listed node or station on a cell that the grid does not mark is not
    shown. *)
Theorem older_build_shows_last_grid (history : list Snapshot) (size : Z)
    (gameState : Snapshot) (s s' : GameScene) :
  for_each buildScene_001 history (scene_initial size) = Some s →
  buildScene_001 gameState s = Some s' →
  ∃ ags, agents gameState = Some ags
    ∧ ∀ d, d ∈ shown <$> entities s'
      ↔ (∃ p t, (p, t) ∈ cells gameState
           ∧ ((t = Some "wall" ∧ d = placed 2 KWall p JNull)
              ∨ (t = Some "door" ∧ d = placed 2 KDoor p JNull)
              ∨ (t = Some "window" ∧ d = placed 2 KWindow p JNull)
              ∨ (t = Some "tree" ∧ d = placed 2 KTree p JNull)
              ∨ (t = Some "fuel_station"
                 ∧ d = placed 2 KFuelStation p JNull)
              ∨ (t = Some "light_node"
                 ∧ d = placed 2 KLightNode p
                         (owner_at (light_nodes gameState) p))))
        ∨ d = placed 2 KAgent (position (strategist ags)) JNull
        ∨ d = placed 2 KAgent (position (instinct ags)) JNull.
Proof.
  intros Hhist Hb.
  assert (Hinv : registered s ∧ cellSize s = 2).
  { revert Hhist.
    apply (for_each_invariant (λ s, registered s ∧ cellSize s = 2)).
    - intros st s0 s1 [Hreg Hcs] H1.
      destruct (buildScene_001_Some _ _ _ H1) as [Hrows Hags]. split.
      + by eapply registered_buildScene_001.
      + destruct Hags as [ags Hags].
        rewrite (buildScene_001_spawns _ _ _ Hrows Hags) in H1.
        injection H1 as <-.
        by rewrite cellSize_relit, cellSize_spawn_all.
    - split; [|done]. intros i Hi. by apply elem_of_nil in Hi. }
  destruct Hinv as [Hreg Hcs].
  destruct (buildScene_001_Some _ _ _ Hb) as [Hrows [ags Hags]].
  rewrite (buildScene_001_spawns _ _ _ Hrows Hags) in Hb. injection Hb as <-.
  exists ags. split; [done|]. intros d.
  rewrite entities_relit_spawn_all;
    [|by apply children_clear_registered|done|apply NoDup_plan_001].
  rewrite elem_of_shown_001, Hcs. done.
Qed.

Lemma older_build_shows_last_grid_witness :
  ∃ s s', for_each buildScene_001 [snapshot_with_twins; sample_snapshot]
            (scene_initial 12) = Some s
    ∧ buildScene_001 snapshot_with_door s = Some s'
    ∧ placed 2 KDoor (at_cell 1 1) JNull ∈ shown <$> entities s'.
Proof.
  eexists. eexists. split; [vm_compute; reflexivity|].
  split; [vm_compute; reflexivity|].
  match goal with |- _ ∈ shown <$> entities ?s' =>
    destruct (older_build_shows_last_grid
                [snapshot_with_twins; sample_snapshot] 12
                snapshot_with_door
                (default (scene_initial 12)
                   (for_each buildScene_001
                      [snapshot_with_twins; sample_snapshot]
                      (scene_initial 12)))
                s') as (ags & _ & H)
  end; [vm_compute; reflexivity | vm_compute; reflexivity |].
  apply H. left. exists (at_cell 1 1), (Some "door"). split.
  - apply elem_of_cells. split; [cbn; lia|]. reflexivity.
  - right; left. done.
Defined.

(** ** The stations after an action *)

Lemma updateFuelStation_at lk p isActive s :
  updateFuelStation lk (Some p) isActive s
  = Some (restation_at lk p isActive s).
Proof.
  unfold updateFuelStation, restation_at. cbn.
  by destruct (fuelStations s !! key p).
Qed.

Lemma for_each_updateFuelStation stations s :
  for_each (λ fs sc, updateFuelStation scene_js (Some (fs_position fs))
                       (is_active fs) sc) stations s
  = Some (restationed stations s).
Proof.
  revert s. induction stations as [|fs stations IH]; intros s; [done|].
  cbn [for_each]. rewrite updateFuelStation_at. cbn [mbind option_bind].
  apply IH.
Qed.

Lemma restationed_frame stations s :
  children (restationed stations s) = children s
  ∧ ∀ r, registry r (restationed stations s) = registry r s.
Proof.
  revert s. induction stations as [|fs stations IH]; intros s; [done|].
  unfold restationed in *. cbn [foldl].
  destruct (IH (restation_at scene_js (fs_position fs) (is_active fs) s))
    as [-> Hr].
  unfold restation_at in *.
  destruct (fuelStations s !! key (fs_position fs)).
  - split; [done|]. intros r. rewrite Hr. by destruct r.
  - done.
Qed.

Lemma store_restationed stations s i :
  store (restationed stations s) !! i
  = (λ o, foldl (λ o fs,
                   if decide (fuelStations s !! key (fs_position fs) = Some i)
                   then restation scene_js (is_active fs) o else o)
            o stations) <$> store s !! i.
Proof.
  revert s. induction stations as [|fs stations IH]; intros s.
  - cbn. by destruct (store s !! i).
  - unfold restationed in *. cbn [foldl]. rewrite IH.
    assert (Hl : fuelStations (restation_at scene_js (fs_position fs)
                                 (is_active fs) s) = fuelStations s).
    { unfold restation_at. by destruct (fuelStations s !! _). }
    rewrite Hl. unfold restation_at.
    destruct (fuelStations s !! key (fs_position fs)) as [id|] eqn:Hid.
    + cbn [store set_store]. rewrite list_lookup_alter.
      destruct (decide (id = i)) as [->|Hne].
      * destruct (store s !! i); [|done]. cbn.
        by rewrite decide_True by done.
      * destruct (store s !! i); [|done]. cbn.
        by rewrite decide_False by congruence.
    + destruct (store s !! i); [|done]. cbn.
      by rewrite decide_False by done.
Qed.

(** No two keys of a registry share a mesh. *)
Lemma scene_reachable_one_mesh s r k k' id :
  scene_reachable s →
  registry r s !! k = Some id → registry r s !! k' = Some id → k = k'.
Proof.
  intros Hreach. revert k k' id.
  induction Hreach as [size|gameState s s' _ IH Hwf Hb
                  |position owner s s' _ IH Hu|position isActive s s' _ IH Hu
                  |agentType target started now s s' w _ IH Hm|a now s _ IH];
    intros k k' id H1 H2.
  - by destruct r.
  - destruct (built_entry _ _ _ _ _ _ Hb H1) as (ags & j & o & Ha & Hj & -> & _).
    destruct (built_entry _ _ _ _ _ _ Hb H2)
      as (ags' & j' & o' & Ha' & Hj' & Hjj & _).
    assert (j' = j) as -> by lia. simplify_eq. done.
  - unfold updateLightNode in Hu. destruct position as [p|]; [|done].
    cbn in Hu. destruct (lightNodes s !! key p); simplify_eq;
      eapply IH; by destruct r.
  - unfold updateFuelStation in Hu. destruct position as [p|]; [|done].
    cbn in Hu. destruct (fuelStations s !! key p); simplify_eq;
      eapply IH; by destruct r.
  - unfold moveAgent in Hm. destruct (sceneAgents s !! agentType).
    + destruct target as [p|]; [|done]. cbn in Hm.
      destruct (store s !! n); [|done]. cbn in Hm. simplify_eq.
      eapply IH; by destruct r.
    + simplify_eq. by eapply IH.
  - eapply IH; by destruct r.
Qed.

Lemma foldl_no_hit {A B} (hit : B → Prop) `{!∀ b, Decision (hit b)}
    (f : B → A → A) (l : list B) (o : A) :
  (∀ b, b ∈ l → ¬ hit b) →
  foldl (λ o b, if decide (hit b) then f b o else o) o l = o.
Proof.
  revert o. induction l as [|b l IH]; intros o Hno; [done|]. cbn.
  rewrite decide_False by (apply Hno, list_elem_of_here).
  apply IH. intros b' Hb'. apply Hno. by apply list_elem_of_further.
Qed.

(** X23. The loop that [handleAction] runs over the stations of the new
    state leaves each listed station with the look of its own
    [is_active]: lit when the value is truthy and dimmed otherwise,
    whatever it showed before. It changes no other entity, adds none and
    removes none. *)
Theorem stations_follow_state (stations : list FuelStationData)
    (s s' : GameScene) :
  scene_reachable s →
  NoDup (fs_position <$> stations) →
  for_each (λ fs sc, updateFuelStation scene_js (Some (fs_position fs))
                       (is_active fs) sc) stations s = Some s' →
  (∀ fs id, fs ∈ stations →
     fuelStations s !! key (fs_position fs) = Some id →
     store s' !! id = restation scene_js (is_active fs) <$> store s !! id)
  ∧ (∀ id, (∀ fs, fs ∈ stations →
              fuelStations s !! key (fs_position fs) ≠ Some id) →
     store s' !! id = store s !! id)
  ∧ children s' = children s
  ∧ ∀ r, registry r s' = registry r s.
Proof.
  intros Hreach Hnd. rewrite for_each_updateFuelStation. intros [= <-].
  destruct (restationed_frame stations s) as [Hch Hreg].
  split_and!; [| |done|done].
  - intros fs id Hfs Hid. rewrite store_restationed.
    destruct (store s !! id) as [o|]; [|done]. cbn. f_equal.
    clear Hch Hreg. revert Hnd Hfs.
    induction stations as [|m stations IH] using rev_ind; intros Hnd Hfs.
    { by apply elem_of_nil in Hfs. }
    rewrite foldl_snoc. rewrite fmap_app in Hnd.
    apply NoDup_app in Hnd as (Hnd & Hdis & _).
    apply elem_of_app in Hfs as [Hfs|Hfs].
    + rewrite decide_False; [by apply IH|]. intros Hm.
      pose proof (scene_reachable_one_mesh s RFuelStations _ _ _ Hreach
                    Hm Hid) as Heq%(inj key).
      apply (Hdis (fs_position fs)).
      * apply list_elem_of_fmap. by exists fs.
      * rewrite <- Heq. cbn. left.
    + apply list_elem_of_singleton in Hfs as ->.
      rewrite decide_True by done. f_equal.
      apply (foldl_no_hit
               (λ fs, fuelStations s !! key (fs_position fs) = Some id)
               (λ fs, restation scene_js (is_active fs))).
      intros fs' Hfs' Hhit.
      pose proof (scene_reachable_one_mesh s RFuelStations _ _ _ Hreach
                    Hhit Hid) as Heq%(inj key).
      apply (Hdis (fs_position fs')).
      * apply list_elem_of_fmap. by exists fs'.
      * rewrite Heq. cbn. left.
  - intros id Hno. rewrite store_restationed.
    destruct (store s !! id) as [o|]; [|done]. cbn. f_equal.
    by apply (foldl_no_hit
                (λ fs, fuelStations s !! key (fs_position fs) = Some id)
                (λ fs, restation scene_js (is_active fs))).
Qed.

Lemma stations_follow_state_witness :
  ∃ s' o, for_each (λ fs sc, updateFuelStation scene_js
                               (Some (fs_position fs)) (is_active fs) sc)
            [{| fs_position := at_cell 1 0; is_active := JBool false |}]
            built_sample = Some s'
    ∧ store s' !! 1%nat = Some o ∧ lightIntensity o = 1 # 5.
Proof.
  eexists. eexists. split; [vm_compute; reflexivity|].
  match goal with |- store ?s' !! _ = _ ∧ _ =>
    destruct (stations_follow_state
                [{| fs_position := at_cell 1 0; is_active := JBool false |}]
                built_sample s') as (H & _)
  end.
  - apply built_sample_reachable.
  - apply NoDup_singleton.
  - vm_compute. reflexivity.
  - split.
    + rewrite (H {| fs_position := at_cell 1 0; is_active := JBool false |}
                 1%nat); [reflexivity|apply list_elem_of_here|reflexivity].
    + reflexivity.
Defined.

(** ** An update of a light node and a rebuild *)

Lemma appearance_entities s1 s2 :
  children s1 = children s2 →
  appearance <$> store s1 = appearance <$> store s2 →
  appearance <$> entities s1 = appearance <$> entities s2.
Proof.
  intros Hch Hst. unfold entities. rewrite !list_fmap_omap, Hch.
  apply omap_ext_in. intros i _. by rewrite <- !list_lookup_fmap, Hst.
Qed.

(** X24. Updating a light node in place and rebuilding agree. After a
    build from a well-formed snapshot, [updateLightNode] at the cell of
    a listed node leaves the scene with the same entities, each with
    the same place, colour, glow and controller, as a build from the
    snapshot in which that node has passed to the new controller. *)
Theorem updateLightNode_as_rebuild (gameState : Snapshot) (j : nat)
    (n : LightNodeData) (owner : jsval) (s s1 s2 : GameScene) :
  well_formed gameState →
  light_nodes gameState !! j = Some n →
  buildScene gameState s = Some s1 →
  updateLightNode scene_js (Some (ln_position n)) owner s1 = Some s2 →
  ∃ s2', buildScene (with_owner j owner gameState) s = Some s2'
    ∧ appearance <$> entities s2' = appearance <$> entities s2.
Proof.
  intros (Hrows & [ags Hags] & Hfs & Hln) Hn Hb Hu.
  rewrite (buildScene_spawns _ _ _ Hrows Hags) in Hb. injection Hb as <-.
  rewrite updateLightNode_at in Hu. injection Hu as <-.
  rewrite (buildScene_spawns (with_owner j owner gameState) ags s)
    by done.
  eexists. split; [done|].
  change (cleared_js (with_owner j owner gameState) s)
    with (cleared_js gameState s).
  set (c := cleared_js gameState s). set (cs := cellSize s).
  set (W := wall_spawn scene_js cs <$> wall_cells gameState).
  set (F := (λ fs, station_spawn scene_js cs (fs_position fs))
              <$> fuel_stations gameState).
  set (h := λ m, node_spawn scene_js cs (ln_position m) (controlled_by m)).
  set (g := λ m, {| ln_position := ln_position m; controlled_by := owner |}).
  assert (Hplan : plan_js cs gameState ags
                  = W ++ F ++ (h <$> light_nodes gameState)
                      ++ agent_spawns cs ags) by done.
  assert (Hplan' : plan_js cs (with_owner j owner gameState) ags
                   = W ++ F ++ (h <$> alter g j (light_nodes gameState))
                       ++ agent_spawns cs ags) by done.
  set (idx := (length W + (length F + j))%nat).
  assert (Hidx : plan_js cs gameState ags !! idx
                 = Some (RLightNodes, key (ln_position n), (h n).2)).
  { rewrite Hplan. unfold idx.
    rewrite lookup_app_r by lia. rewrite lookup_app_r by lia.
    replace (length W + (length F + j) - length W - length F)%nat
      with j by lia.
    rewrite lookup_app_l
      by (rewrite length_fmap; by eapply lookup_lt_Some).
    by rewrite list_lookup_fmap, Hn. }
  unfold relight_at.
  pose proof (registry_spawn_all_at RLightNodes _ _ idx _ c
                (NoDup_plan_js cs gameState ags Hfs Hln) Hidx) as Hreg.
  cbn [registry] in Hreg. rewrite Hreg.
  apply eq_sym, appearance_entities.
  - cbn [children set_store]. rewrite !children_spawn_all.
    do 2 f_equal. rewrite Hplan, Hplan'.
    by rewrite !length_app, !length_fmap, length_alter.
  - cbn [store set_store]. rewrite !store_spawn_all, alter_app_r.
    rewrite !fmap_app. f_equal. rewrite Hplan, Hplan'. unfold idx.
    rewrite !fmap_app, <- (length_fmap snd W), alter_app_r.
    rewrite <- (length_fmap snd F), alter_app_r.
    rewrite alter_app_l
      by (rewrite !length_fmap; by eapply lookup_lt_Some).
    rewrite !fmap_app. do 2 f_equal. f_equal.
    rewrite <- !list_fmap_compose.
    set (r := λ d : Kind * Q * Q * Q * Z * Q * jsval,
                (d.1.1.1.1.1.1, d.1.1.1.1.1.2, d.1.1.1.1.2, d.1.1.1.2,
                 bulb_colour scene_js owner,
                 (if truthy owner then node_emissive_on scene_js
                  else node_emissive_off scene_js),
                 or_null owner)).
    rewrite (list_fmap_alter appearance (relight scene_js owner) r)
      by (apply Forall_forall; done).
    rewrite <- list_fmap_compose.
    rewrite (list_fmap_alter (appearance ∘ snd ∘ h) g r); [done|].
    apply Forall_forall. intros m _. unfold r, h, g, appearance, node_spawn.
    cbn. by destruct owner.
Qed.

Lemma updateLightNode_as_rebuild_witness :
  ∃ s2 s2', updateLightNode scene_js (Some (at_cell 0 1)) (JStr "strategist")
              built_sample = Some s2
    ∧ buildScene (with_owner 0 (JStr "strategist") sample_snapshot)
        (scene_initial 16) = Some s2'
    ∧ appearance <$> entities s2' = appearance <$> entities s2.
Proof.
  eexists.
  match goal with |- ∃ s2', ?U = Some ?s2 ∧ _ =>
    destruct (updateLightNode_as_rebuild sample_snapshot 0
                {| ln_position := at_cell 0 1;
                   controlled_by := JStr "instinct" |}
                (JStr "strategist") (scene_initial 16) built_sample
                (default built_sample U))
      as (s2' & Hb & He)
  end.
  - apply sample_snapshot_well_formed.
  - reflexivity.
  - vm_compute. reflexivity.
  - vm_compute. reflexivity.
  - exists s2'. split; [vm_compute; reflexivity|]. split; [exact Hb|exact He].
Defined.
